(** * y10k: the download engine of io.go

    A shallow embedding of [src/io.go]: the severity logger and its
    package-level state, [urljoin], and the concurrent [Download] engine
    (one producer goroutine, [DownloadThreads] worker goroutines and the
    calling goroutine, coupled by two unbuffered channels).

    Conventions.
    - Go [int] and [uint64] values are [Z]; no arithmetic of the file can
      overflow ([i + 1] with [i < len(jobs)]).
    - Go strings are byte strings, modelled as [string]; [fmt.Sprintf] is
      written out as concatenation, with [%d] rendered by [itoa].
    - A Go [error] is [option error]: [None] is [nil].
    - A function that may panic returns [option]: [None] is the panic. *)

From Stdlib Require Import ZArith Lia String Ascii DecimalString.
From stdpp Require Import base list strings gmap.

Local Open Scope Z_scope.

(** ** Errors *)

(** The error values that flow through the file: the sentinel
    [yum.ErrChecksumMismatch], the values built by [fmt.Errorf], and every
    other value handed back by a library ([net/http], [os], [io], [yum]),
    of which only the text of [Error()] is observed. *)
Inductive error :=
| ErrChecksumMismatch
| errorString (s : string)
| libError (s : string).

#[global] Instance error_eq_dec : EqDecision error.
Proof. solve_decision. Defined.

(** The line feed, written [\n] in Go. *)
Definition nl : string := String (ascii_of_nat 10) EmptyString.

(** [%d] of [fmt]. *)
Definition itoa (z : Z) : string := NilZero.string_of_int (Z.to_int z).

(** ** strings.TrimLeft, strings.TrimRight and urljoin *)

Module Join.

Fixpoint in_cutset (c : ascii) (cutset : string) : bool :=
  match cutset with
  | EmptyString => false
  | String d rest => if Ascii.eqb c d then true else in_cutset c rest
  end.

Fixpoint TrimLeft (s cutset : string) : string :=
  match s with
  | EmptyString => EmptyString
  | String c rest => if in_cutset c cutset then TrimLeft rest cutset else s
  end.

Fixpoint TrimRight (s cutset : string) : string :=
  match s with
  | EmptyString => EmptyString
  | String c rest =>
      match TrimRight rest cutset with
      | EmptyString => if in_cutset c cutset then EmptyString
                       else String c EmptyString
      | kept => String c kept
      end
  end.

(** [fmt.Sprintf("%s/%s", strings.TrimRight(url, "/"), strings.TrimLeft(s, "/"))] *)
Definition join2 (url s : string) : string :=
  TrimRight url "/" +:+ "/" +:+ TrimLeft s "/".

(** One iteration of the loop of [urljoin]. *)
Definition urljoin_body (url s : string) : string :=
  if String.eqb url "" then s
  else if negb (String.eqb s "") then join2 url s
  else url.

Definition urljoin (v : list string) : string :=
  fold_left urljoin_body v ""%string.

(** What the specification says of [urljoin]: the first segment as it is,
    even when empty, then each later non-empty segment joined to it. *)
Definition urljoin_as_specified (v : list string) : string :=
  match v with
  | [] => ""%string
  | first :: rest =>
      fold_left (fun acc s => if String.eqb s "" then acc else join2 acc s)
                rest first
  end.

(** The segments from the first non-empty one on. *)
Fixpoint skip_empty (v : list string) : list string :=
  match v with
  | [] => []
  | s :: rest => if String.eqb s "" then skip_empty rest else v
  end.

Definition last_char (s : string) : option ascii :=
  match String.length s with
  | O => None
  | S n => String.get n s
  end.

Definition first_char (s : string) : option ascii := String.get 0 s.

(** A segment that is not empty and has no slash at either end. *)
Definition clean_segment (s : string) : Prop :=
  s <> ""%string /\ first_char s <> Some "/"%char
  /\ last_char s <> Some "/"%char.

End Join.

(** ** The severity logger *)

Module Log.

Definition LOG_CAT_ERROR : Z := 0.
Definition LOG_CAT_WARN : Z := 1.
Definition LOG_CAT_INFO : Z := 2.
Definition LOG_CAT_DEBUG : Z := 3.

(** An open [*os.File], by its descriptor. *)
Inductive File := mkFile (fd : nat).

(** A [*log.Logger] made by [log.New(f, "", log.LstdFlags)]. *)
Inductive Logger := mkLogger (lg_out : File).

(** The package-level variables. *)
Record globals := mkGlobals {
  logfileHandle : option File;
  logger : option Logger
}.

Definition globals0 : globals := mkGlobals None None.

(** One write: to standard output, to standard error, or one
    [logger.Printf] (which puts the time stamp before the text). *)
Inductive output :=
| ToStdout (text : string)
| ToStderr (text : string)
| ToLogger (l : Logger) (text : string).

(** Modelled from the spec: [PanicOn], which is declared in another file of
    the package; it aborts the process when handed a non-nil error. *)
Definition PanicOn (err : option error) : option unit :=
  match err with
  | None => Some tt
  | Some _ => None
  end.

Definition Error_text (mismatch_text : string) (e : error) : string :=
  match e with
  | ErrChecksumMismatch => mismatch_text
  | errorString s => s
  | libError s => s
  end.

(** [InitLogFile]; [opened] is what [os.OpenFile] answers. *)
Definition InitLogFile (LogFilePath : string) (opened : error + File)
    (g : globals) : option globals :=
  if String.eqb LogFilePath "" then Some g
  else
    match opened with
    | inl err => match PanicOn (Some err) with
                 | Some _ => Some g
                 | None => None
                 end
    | inr f => Some (mkGlobals (logfileHandle g) (Some (mkLogger f)))
    end.

(** [CloseLogFile]; [closed] is what [Close] answers. The second component
    lists the files it closed. *)
Definition CloseLogFile (closed : option error) (g : globals)
    : option (globals * list File) :=
  match logfileHandle g with
  | Some f => match PanicOn closed with
              | Some _ => Some (g, [f])
              | None => None
              end
  | None => Some (g, [])
  end.

Definition cat_name (category : Z) : option string :=
  if category =? LOG_CAT_ERROR then Some "ERROR"%string
  else if category =? LOG_CAT_WARN then Some "WARNING"%string
  else if category =? LOG_CAT_INFO then Some "INFO"%string
  else if category =? LOG_CAT_DEBUG then Some "DEBUG"%string
  else None.

(** [Logf]; [msg] is [fmt.Sprintf(format, a...)]. *)
Definition Logf (g : globals) (category : Z) (msg : string) : option output :=
  match cat_name category with
  | None => None
  | Some cat =>
      match logger g with
      | None => None
      | Some l => Some (ToLogger l (cat +:+ " " +:+ msg))
      end
  end.

Definition Printf (g : globals) (msg : string) : option output :=
  match logger g with
  | None => Some (ToStdout msg)
  | Some _ => Logf g LOG_CAT_INFO msg
  end.

Section WithMismatchText.

Variable mismatch_text : string.

Definition Errorf (g : globals) (err : option error) (msg : string)
    : option output :=
  match logger g with
  | None =>
      match err with
      | Some e => Some (ToStderr ("ERROR: " +:+ msg +:+ ": "
                                  +:+ Error_text mismatch_text e +:+ nl))
      | None => Some (ToStderr ("ERROR: " +:+ msg +:+ nl))
      end
  | Some _ =>
      match err with
      | Some e => Logf g LOG_CAT_ERROR
                    (msg +:+ ": " +:+ Error_text mismatch_text e +:+ nl)
      | None => Logf g LOG_CAT_ERROR msg
      end
  end.

End WithMismatchText.

(** [Dprintf]: nothing unless [DebugMode]. *)
Definition Dprintf (DebugMode : bool) (g : globals) (msg : string)
    : option (list output) :=
  if DebugMode then
    match logger g with
    | None => Some [ToStderr ("DEBUG: " +:+ msg)]
    | Some _ => match Logf g LOG_CAT_DEBUG msg with
                | Some o => Some [o]
                | None => None
                end
    end
  else Some [].

(** The calls that touch the package-level variables, with the answers of
    the operating system. *)
Inductive call :=
| CallInitLogFile (LogFilePath : string) (opened : error + File)
| CallCloseLogFile (closed : option error).

(** The variables and the files closed so far, after one call. *)
Definition do_call (c : call) (st : globals * list File)
    : option (globals * list File) :=
  match c with
  | CallInitLogFile p opened =>
      match InitLogFile p opened (fst st) with
      | Some g => Some (g, snd st)
      | None => None
      end
  | CallCloseLogFile closed =>
      match CloseLogFile closed (fst st) with
      | Some (g, fs) => Some (g, snd st ++ fs)
      | None => None
      end
  end.

Fixpoint do_calls (cs : list call) (st : globals * list File)
    : option (globals * list File) :=
  match cs with
  | [] => Some st
  | c :: rest =>
      match do_call c st with
      | Some st' => do_calls rest st'
      | None => None
      end
  end.

End Log.

(** ** Download *)

Module Engine.

Import Log.

Record DownloadJob := mkJob {
  Label : string;
  URL : string;
  Size : Z;
  Path : string;
  Checksum : string;
  ChecksumType : string;
  Index : Z;
  Error : option error
}.

(** [job.Index = i] and [job.Error = err] on the goroutine's own copy. *)
Definition set_Index (i : Z) (job : DownloadJob) : DownloadJob :=
  mkJob (Label job) (URL job) (Size job) (Path job) (Checksum job)
        (ChecksumType job) i (Error job).

Definition set_Error (err : error) (job : DownloadJob) : DownloadJob :=
  mkJob (Label job) (URL job) (Size job) (Path job) (Checksum job)
        (ChecksumType job) (Index job) (Some err).

(** The part of an [*http.Response] that the code reads. *)
Record Response := mkResponse {
  Status : string;
  StatusCode : Z
}.

Definition StatusOK : Z := 200.

(** The two resources a job acquires: the body of its response and the
    file it writes, each tagged with the [Index] of the job. *)
Inductive handle :=
| Body (job_index : Z)
| OutFile (job_index : Z).

#[global] Instance handle_eq_dec : EqDecision handle.
Proof. solve_decision. Defined.

(** What the outside world answers to the call a worker makes next. *)
Inductive answer :=
| NoAnswer
| Got (r : error + Response)
| Created (err : option error)
| Copied (written : list Byte.byte) (err : option error)
| Validated (err : option error).

(** Where the calling goroutine stands: before the length check, in the
    loop that starts the consumers with [i] started, in the loop that
    waits for them with [i] received, or returned. *)
Inductive mpc :=
| MStart
| MSpawn (i : Z)
| MWait (i : Z)
| MReturned (ret : option error).

(** The producer: not started, at iteration [i] of its loop (blocked on
    [c <- job], or about to [close(c)] when the list is exhausted), or
    finished. *)
Inductive ppc :=
| PNotStarted
| PLoop (i : nat)
| PExited.

(** A consumer: blocked on [range c]; holding a job before [Dprintf],
    before [http.Get], before [os.Create], before [io.Copy], before the
    checksum validation, at the label [JobDone]; blocked on [done <- true];
    at the end of the function with its deferred calls pending; gone. *)
Inductive wpc :=
| WRange
| WDprintf (job : DownloadJob)
| WGet (job : DownloadJob)
| WCreate (job : DownloadJob)
| WCopy (job : DownloadJob)
| WVerify (job : DownloadJob)
| WJobDone (job : DownloadJob)
| WSendDone
| WDefer
| WDead.

Record worker := mkWorker {
  pc : wpc;
  defers : list handle
}.

(** The whole system. [delivered] are the values sent on [complete],
    [closes] counts the executed [close(complete)], [outs] are the writes
    of the logger, [opened] are the resources currently open, and
    [finished] records, for the proofs only, every job that has passed
    [JobDone]. *)
Record state := mkState {
  main : mpc;
  producer : ppc;
  c_closed : bool;
  workers : list worker;
  fs : gmap string (list Byte.byte);
  opened : list handle;
  delivered : list DownloadJob;
  closes : nat;
  outs : list output;
  finished : list DownloadJob;
  panicked : bool
}.

Definition with_main (m : mpc) (s : state) : state :=
  mkState m (producer s) (c_closed s) (workers s) (fs s) (opened s)
          (delivered s) (closes s) (outs s) (finished s) (panicked s).

Definition with_producer (p : ppc) (closed : bool) (s : state) : state :=
  mkState (main s) p closed (workers s) (fs s) (opened s)
          (delivered s) (closes s) (outs s) (finished s) (panicked s).

Definition with_workers (ws : list worker) (s : state) : state :=
  mkState (main s) (producer s) (c_closed s) ws (fs s) (opened s)
          (delivered s) (closes s) (outs s) (finished s) (panicked s).

Definition with_fs (f : gmap string (list Byte.byte)) (s : state) : state :=
  mkState (main s) (producer s) (c_closed s) (workers s) f (opened s)
          (delivered s) (closes s) (outs s) (finished s) (panicked s).

Definition with_opened (hs : list handle) (s : state) : state :=
  mkState (main s) (producer s) (c_closed s) (workers s) (fs s) hs
          (delivered s) (closes s) (outs s) (finished s) (panicked s).

Definition with_delivered (ds : list DownloadJob) (s : state) : state :=
  mkState (main s) (producer s) (c_closed s) (workers s) (fs s) (opened s)
          ds (closes s) (outs s) (finished s) (panicked s).

Definition with_closes (n : nat) (s : state) : state :=
  mkState (main s) (producer s) (c_closed s) (workers s) (fs s) (opened s)
          (delivered s) n (outs s) (finished s) (panicked s).

Definition with_outs (os : list output) (s : state) : state :=
  mkState (main s) (producer s) (c_closed s) (workers s) (fs s) (opened s)
          (delivered s) (closes s) os (finished s) (panicked s).

Definition with_finished (js : list DownloadJob) (s : state) : state :=
  mkState (main s) (producer s) (c_closed s) (workers s) (fs s) (opened s)
          (delivered s) (closes s) (outs s) js (panicked s).

Definition panic (s : state) : state :=
  mkState (main s) (producer s) (c_closed s) (workers s) (fs s) (opened s)
          (delivered s) (closes s) (outs s) (finished s) true.

(** Worker [w] moves to [p] with the deferred calls [ds]. *)
Definition set_worker (w : nat) (p : wpc) (ds : list handle) (s : state)
    : state :=
  with_workers (<[w := mkWorker p ds]> (workers s)) s.

(** [defer h.Close()] right after [h] was acquired by worker [w]. *)
Definition acquire (h : handle) (s : state) : state :=
  with_opened (h :: opened s) s.

(** The deferred calls of a function that returns: every handle is
    closed. *)
Definition release (hs : list handle) (s : state) : state :=
  with_opened (list_difference (opened s) hs) s.

Definition initial (fs0 : gmap string (list Byte.byte)) : state :=
  mkState MStart PNotStarted false [] fs0 [] [] 0%nat [] [] false.

(** Who acts: the caller, the caller receiving [done] from a worker, the
    producer handing its job to a worker, the producer closing [c], or a
    worker making its next call, with the answer it gets. *)
Inductive action :=
| AMain
| AMainRecv (w : nat)
| ASend (w : nat)
| ACloseC
| AWorker (w : nat) (ans : answer).

(** *** Concrete scenarios *)

Module Scenario.

Definition job_a : DownloadJob :=
  mkJob "a.rpm" "http://mirror/a.rpm" 1024 "/tmp/a.rpm" "0a" "sha256" 0 None.

Definition job_b : DownloadJob :=
  mkJob "b.rpm" "http://mirror/b.rpm" 2048 "/tmp/b.rpm" "0b" "sha256" 0 None.

(** A job the caller hands in with [Index] and [Error] already set. *)
Definition job_stale : DownloadJob :=
  mkJob "c.rpm" "http://mirror/c.rpm" 512 "/tmp/c.rpm" "0c" "sha256" 7
        (Some (libError "stale")).

(** A stand-in for [bytefmt.ByteSize]. *)
Definition byte_size (n : Z) : string := itoa n +:+ "B".

Definition ok : Response := mkResponse "200 OK" 200.
Definition not_found : Response := mkResponse "404 Not Found" 404.

Definition no_files : gmap string (list Byte.byte) := ∅.

(** The caller starts the producer and one worker and begins to wait. *)
Definition boot : list action := [AMain; AMain; AMain].

(** Worker 0 receives the next job and prints its progress line. *)
Definition take : list action := [ASend 0%nat; AWorker 0%nat NoAnswer].

(** Worker 0 fetches, creates, copies. *)
Definition fetch_and_store : list action :=
  [AWorker 0%nat (Got (inr ok)); AWorker 0%nat (Created None);
   AWorker 0%nat (Copied [] None)].

(** Worker 0 validates with success and passes [JobDone]. *)
Definition validate_and_report : list action :=
  [AWorker 0%nat (Validated None); AWorker 0%nat NoAnswer].

(** Worker 0 gets 404 and passes [JobDone]. *)
Definition fetch_404 : list action :=
  [AWorker 0%nat (Got (inr not_found)); AWorker 0%nat NoAnswer].

(** The producer closes [c], worker 0 leaves its loop and signals, the
    caller returns. *)
Definition wind_up : list action :=
  [ACloseC; AWorker 0%nat NoAnswer; AMainRecv 0%nat; AMain].

End Scenario.

Section Run.

(** The package-level configuration, declared in other files, the two
    library functions whose results are only printed, the logger state,
    and the arguments of [Download]: [sink] is [complete != nil]. *)
Variable DownloadThreads : Z.
Variable DebugMode : bool.
Variable ByteSize : Z -> string.
Variable mismatch_text : string.
Variable g : globals.
Variable jobs : list DownloadJob.
Variable sink : bool.

(** A write of the logger; a panic of the logger stops the process. *)
Definition emit (o : option (list output)) (s : state) : state :=
  match o with
  | Some os => with_outs (outs s ++ os) s
  | None => panic s
  end.

(** The deferred function of [Download]. *)
Definition close_complete (s : state) : state :=
  if sink then
    (if (0 <? closes s)%nat then panic else id)
      (with_closes (S (closes s)) s)
  else s.

(** [return nil], which runs the deferred function first. *)
Definition return_nil (s : state) : state :=
  with_main (MReturned None) (close_complete s).

(** The caller, except for its receives. *)
Definition main_step (s : state) : option state :=
  match main s with
  | MStart =>
      if (length jobs =? 0)%nat then Some (return_nil s)
      else Some (with_main (MSpawn 0) (with_producer (PLoop 0) false s))
  | MSpawn i =>
      if i <? DownloadThreads then
        Some (with_main (MSpawn (i + 1))
                (with_workers (workers s ++ [mkWorker WRange []]) s))
      else Some (with_main (MWait 0) s)
  | MWait i =>
      if i <? DownloadThreads then None
      else Some (return_nil s)
  | MReturned _ => None
  end.

(** [<-done] of the caller meets [done <- true] of worker [w]. *)
Definition main_recv (w : nat) (s : state) : option state :=
  match main s, workers s !! w with
  | MWait i, Some (mkWorker WSendDone ds) =>
      if i <? DownloadThreads then
        Some (with_main (MWait (i + 1)) (set_worker w WDefer ds s))
      else None
  | _, _ => None
  end.

(** [c <- job] of the producer meets [range c] of worker [w]. *)
Definition producer_send (w : nat) (s : state) : option state :=
  match producer s, workers s !! w with
  | PLoop i, Some (mkWorker WRange ds) =>
      match jobs !! i with
      | Some job =>
          Some (with_producer (PLoop (S i)) (c_closed s)
                  (set_worker w (WDprintf (set_Index (Z.of_nat i + 1) job))
                              ds s))
      | None => None
      end
  | _, _ => None
  end.

(** [close(c)] after the last job. *)
Definition producer_close (s : state) : option state :=
  match producer s with
  | PLoop i =>
      match jobs !! i with
      | Some _ => None
      | None => Some (with_producer PExited true s)
      end
  | _ => None
  end.

Definition progress_text (job : DownloadJob) : string :=
  "[ " +:+ itoa (Index job) +:+ " / " +:+ itoa (Z.of_nat (length jobs))
  +:+ " ] Downloading " +:+ Label job +:+ " (" +:+ ByteSize (Size job)
  +:+ ")..." +:+ nl.

Definition failure_text (job : DownloadJob) : string :=
  "Error downloading " +:+ Label job.

(** The lines after the label [JobDone]. *)
Definition job_done (job : DownloadJob) (s : state) : state :=
  let s' := with_finished (finished s ++ [job]) s in
  if sink then
    if (0 <? closes s)%nat then panic s'
    else with_delivered (delivered s ++ [job]) s'
  else
    match Error job with
    | Some e =>
        emit (option_map (fun o => [o])
                (Errorf mismatch_text g (Some e) (failure_text job))) s'
    | None => s'
    end.

(** The next call of worker [w]. *)
Definition worker_step (w : nat) (ans : answer) (s : state) : option state :=
  match workers s !! w with
  | None => None
  | Some (mkWorker p ds) =>
      match p, ans with
      | WRange, NoAnswer =>
          if c_closed s then Some (set_worker w WSendDone ds s) else None
      | WDprintf job, NoAnswer =>
          Some (set_worker w (WGet job) ds
                  (emit (Dprintf DebugMode g (progress_text job)) s))
      | WGet job, Got (inl err) =>
          Some (set_worker w (WJobDone (set_Error err job)) ds s)
      | WGet job, Got (inr resp) =>
          let h := Body (Index job) in
          if negb (StatusCode resp =? StatusOK) then
            Some (set_worker w
                    (WJobDone (set_Error
                       (errorString ("Bad status: " +:+ Status resp)) job))
                    (h :: ds) (acquire h s))
          else Some (set_worker w (WCreate job) (h :: ds) (acquire h s))
      | WCreate job, Created (Some err) =>
          Some (set_worker w (WJobDone (set_Error err job)) ds s)
      | WCreate job, Created None =>
          let h := OutFile (Index job) in
          Some (set_worker w (WCopy job) (h :: ds)
                  (acquire h (with_fs (<[Path job := []]> (fs s)) s)))
      | WCopy job, Copied written err =>
          let s' := with_fs (<[Path job := written]> (fs s)) s in
          match err with
          | Some e => Some (set_worker w (WJobDone (set_Error e job)) ds s')
          | None => Some (set_worker w (WVerify job) ds s')
          end
      | WVerify job, Validated err =>
          match err with
          | Some ErrChecksumMismatch =>
              Some (set_worker w
                      (WJobDone (set_Error ErrChecksumMismatch job)) ds s)
          | Some e =>
              Some (set_worker w
                      (WJobDone (set_Error
                         (errorString ("Checksum validation error: "
                                       +:+ Error_text mismatch_text e)) job))
                      ds s)
          | None => Some (set_worker w (WJobDone job) ds s)
          end
      | WJobDone job, NoAnswer =>
          Some (set_worker w WRange ds (job_done job s))
      | WDefer, NoAnswer =>
          Some (set_worker w WDead [] (release ds s))
      | _, _ => None
      end
  end.

(** One step of the system; [None] when the action is not enabled. A
    process that has panicked makes no step. *)
Definition exec1 (a : action) (s : state) : option state :=
  if panicked s then None
  else
    match a with
    | AMain => main_step s
    | AMainRecv w => main_recv w s
    | ASend w => producer_send w s
    | ACloseC => producer_close s
    | AWorker w ans => worker_step w ans s
    end.

Fixpoint run (acts : list action) (s : state) : option state :=
  match acts with
  | [] => Some s
  | a :: rest =>
      match exec1 a s with
      | Some s' => run rest s'
      | None => None
      end
  end.

(** The states a call of [Download] can be in. *)
Definition reachable (fs0 : gmap string (list Byte.byte)) (s : state) : Prop :=
  exists acts, run acts (initial fs0) = Some s.

Definition returned (s : state) : bool :=
  match main s with
  | MReturned _ => true
  | _ => false
  end.

(** *** Vocabulary of the statements *)

(** A worker that has handed [true] to the caller. *)
Definition is_done (p : wpc) : bool :=
  match p with
  | WDefer | WDead => true
  | _ => false
  end.

(** A worker that has left its [range] loop. *)
Definition past_loop (p : wpc) : bool :=
  match p with
  | WSendDone | WDefer | WDead => true
  | _ => false
  end.

Definition count_done (ws : list worker) : nat :=
  sum_list_with (fun wk => if is_done (pc wk) then 1%nat else 0%nat) ws.

(** The job a worker holds. *)
Definition held (p : wpc) : list DownloadJob :=
  match p with
  | WDprintf job | WGet job | WCreate job | WCopy job | WVerify job
  | WJobDone job => [job]
  | _ => []
  end.

Definition held_indices (ws : list worker) : list Z :=
  ws ≫= (fun wk => Index <$> held (pc wk)).

(** How many jobs the producer has handed over. *)
Definition sent (p : ppc) : nat :=
  match p with
  | PNotStarted => 0%nat
  | PLoop i => i
  | PExited => length jobs
  end.

(** The positions [1..n]. *)
Definition positions (n : nat) : list Z :=
  (fun i => Z.of_nat i + 1) <$> seq 0 n.

(** [job] is the element [i] of the input, with [Index] set to [i+1] and
    nothing else changed. *)
Definition tagged (i : nat) (job : DownloadJob) : Prop :=
  exists job0, jobs !! i = Some job0 /\ job = set_Index (Z.of_nat i + 1) job0.

(** [job] stems from element [i] of the input: its [Index] is [i+1] and the
    fields the caller filled in are those of that element; only [Error] may
    differ. *)
Definition from_input (job : DownloadJob) : Prop :=
  exists i job0,
    jobs !! i = Some job0 /\ Index job = Z.of_nat i + 1 /\
    Label job = Label job0 /\ URL job = URL job0 /\ Size job = Size job0 /\
    Path job = Path job0 /\ Checksum job = Checksum job0 /\
    ChecksumType job = ChecksumType job0.

(** What a worker may hold at each place: before [JobDone] the job is as
    the producer sent it. *)
Definition worker_ok (wk : worker) : Prop :=
  match pc wk with
  | WDprintf job | WGet job | WCreate job | WCopy job | WVerify job =>
      exists i, tagged i job
  | WJobDone job => from_input job
  | _ => True
  end.

(** An action in which worker [w] takes part. *)
Definition acts_on (w : nat) (a : action) : bool :=
  match a with
  | AMainRecv w' | ASend w' | AWorker w' _ => Nat.eqb w w'
  | AMain | ACloseC => false
  end.

(** [text] begins with [p]. *)
Fixpoint starts_with (p text : string) : bool :=
  match p with
  | EmptyString => true
  | String c p' =>
      match text with
      | EmptyString => false
      | String d text' => if Ascii.eqb c d then starts_with p' text' else false
      end
  end.

(** The error-severity writes and the debug-severity writes. *)
Definition is_error_output (o : output) : bool :=
  match o with
  | ToStdout _ => false
  | ToStderr text => starts_with "ERROR: " text
  | ToLogger _ text => starts_with "ERROR " text
  end.

Definition is_debug_output (o : output) : bool :=
  match o with
  | ToStdout _ => false
  | ToStderr text => starts_with "DEBUG: " text
  | ToLogger _ text => starts_with "DEBUG " text
  end.

(** The line a failed job leaves when there is no result channel: its
    label and the text of its error, on standard error or in the log. *)
Definition error_line (job : DownloadJob) : option output :=
  match Error job with
  | None => None
  | Some e =>
      let text := ("Error downloading " +:+ Label job +:+ ": "
                   +:+ Error_text mismatch_text e +:+ nl)%string in
      match logger g with
      | None => Some (ToStderr ("ERROR: " +:+ text))
      | Some l => Some (ToLogger l ("ERROR " +:+ text))
      end
  end.

(** *** The invariant of the control skeleton *)

Definition ctrl_inv (s : state) : Prop :=
  panicked s = false
  /\ closes s = (if returned s && sink then 1 else 0)%nat
  /\ (c_closed s = true <-> producer s = PExited)
  /\ (forall i, producer s = PLoop i -> (i <= length jobs)%nat)
  /\ Forall (fun wk => past_loop (pc wk) = true -> c_closed s = true)
            (workers s)
  /\ match main s with
     | MStart => producer s = PNotStarted /\ workers s = []
     | MSpawn i =>
         0 <= i /\ (i <= DownloadThreads \/ i = 0)
         /\ length (workers s) = Z.to_nat i
         /\ count_done (workers s) = 0%nat
         /\ producer s <> PNotStarted /\ jobs <> []
     | MWait i =>
         0 <= i /\ length (workers s) = Z.to_nat DownloadThreads
         /\ Z.of_nat (count_done (workers s)) = i
         /\ producer s <> PNotStarted /\ jobs <> []
     | MReturned ret =>
         ret = None
         /\ ((jobs = [] /\ workers s = [] /\ producer s = PNotStarted)
             \/ (jobs <> [] /\ length (workers s) = Z.to_nat DownloadThreads
                 /\ count_done (workers s) = length (workers s)
                 /\ producer s <> PNotStarted))
     end.

(** *** The invariant of the jobs *)

Definition data_inv (s : state) : Prop :=
  delivered s = (if sink then finished s else [])
  /\ (Index <$> finished s) ++ held_indices (workers s)
       ≡ₚ positions (sent (producer s))
  /\ Forall from_input (finished s)
  /\ Forall worker_ok (workers s).

(** *** The invariant of the log *)

Definition out_inv (s : state) : Prop :=
  filter (fun o => is_error_output o = true) (outs s)
  = (if sink then [] else omap error_line (finished s))
  /\ Forall (fun o => is_error_output o = true
                      \/ (DebugMode = true /\ is_debug_output o = true))
            (outs s).

Definition inv (s : state) : Prop :=
  ctrl_inv s /\ data_inv s /\ out_inv s.

(** *** Two further invariants *)

(** Nothing has happened yet besides the start of the producer. *)
Definition idle (fs0 : gmap string (list Byte.byte)) (s : state) : Prop :=
  workers s = [] /\ finished s = [] /\ delivered s = [] /\ outs s = []
  /\ fs s = fs0 /\ opened s = [] /\ c_closed s = false
  /\ (producer s = PNotStarted \/ producer s = PLoop 0).


(** *** A measure that every step decreases *)

Definition worker_measure (p : wpc) : nat :=
  match p with
  | WDprintf _ => 9
  | WGet _ => 8
  | WCreate _ => 7
  | WCopy _ => 6
  | WVerify _ => 5
  | WJobDone _ => 4
  | WRange => 3
  | WSendDone => 2
  | WDefer => 1
  | WDead => 0
  end%nat.

Definition producer_measure (p : ppc) : nat :=
  match p with
  | PNotStarted => 0
  | PLoop i => 7 * (length jobs - i) + 1
  | PExited => 0
  end%nat.

Definition main_measure (m : mpc) : nat :=
  let T := Z.to_nat DownloadThreads in
  match m with
  | MStart => 7 * length jobs + 5 * T + 4
  | MSpawn i => 4 * Z.to_nat (DownloadThreads - i) + T + 2
  | MWait i => Z.to_nat (DownloadThreads - i) + 1
  | MReturned _ => 0
  end%nat.

Definition measure (s : state) : nat :=
  (main_measure (main s) + producer_measure (producer s)
   + sum_list_with (fun wk => worker_measure (pc wk)) (workers s))%nat.


(** *** Proof automation *)

(** Splits the first [match] or [if] in hypothesis [H]. *)
Ltac split_match H :=
  match type of H with
  | context [match ?x with _ => _ end] => destruct x eqn:?
  end.

(** Turns [H : exec1 a s = Some s'] into one goal per enabled step. *)
Ltac step_cases H :=
  unfold exec1 in H;
  split_match H; [discriminate H|];
  split_match H;
  unfold main_step, main_recv, producer_send, producer_close, worker_step in H;
  repeat (split_match H; try discriminate H);
  injection H as <-.

(** Reduces the projections of an updated state. *)
Ltac proj :=
  cbn [main producer c_closed workers fs opened delivered closes outs
       finished panicked with_main with_producer with_workers with_fs
       with_opened with_delivered with_closes with_outs with_finished panic
       set_worker acquire release pc defers] in *.

(** Rewrites the goal with what is known of the control state. *)
Ltac known :=
  repeat match goal with
  | H : main ?s = _ |- context [main ?s] => rewrite H
  | H : producer ?s = _ |- context [producer ?s] => rewrite H
  | H : c_closed ?s = _ |- context [c_closed ?s] => rewrite H
  | H : panicked ?s = _ |- context [panicked ?s] => rewrite H
  | H : main ?s = _, H' : context [main ?s] |- _ => rewrite H in H'
  | H : producer ?s = _, H' : context [producer ?s] |- _ => rewrite H in H'
  | H : c_closed ?s = _, H' : context [c_closed ?s] |- _ => rewrite H in H'
  end.

(** Turns boolean tests in the hypotheses into propositions. *)
Ltac tests :=
  repeat match goal with
  | H : (_ <? _)%Z = true |- _ => apply Z.ltb_lt in H
  | H : (_ <? _)%Z = false |- _ => apply Z.ltb_ge in H
  | H : (_ =? _)%Z = true |- _ => apply Z.eqb_eq in H
  | H : (_ =? _)%Z = false |- _ => apply Z.eqb_neq in H
  | H : (_ =? _)%nat = true |- _ => apply Nat.eqb_eq in H
  | H : (_ =? _)%nat = false |- _ => apply Nat.eqb_neq in H
  | H : (_ <? _)%nat = true |- _ => apply Nat.ltb_lt in H
  | H : (_ <? _)%nat = false |- _ => apply Nat.ltb_ge in H
  | H : negb _ = true |- _ => apply negb_true_iff in H
  | H : negb _ = false |- _ => apply negb_false_iff in H
  end.

(** Rewrites everywhere with each equation of the conjunction [H]. *)
Ltac rewrite_conj H :=
  lazymatch type of H with
  | _ /\ _ =>
      let H1 := fresh in
      let H2 := fresh in
      destruct H as [H1 H2]; rewrite_conj H1; rewrite_conj H2
  | _ => rewrite ?H in *; clear H
  end.

(** Rewrites with the frame lemmas [E], [C] and [J] of [emit],
    [close_complete] and [job_done] wherever these are applied. *)
Ltac frame_by E C J :=
  repeat match goal with
  | |- context [emit ?o ?s] =>
      progress (let H := fresh in pose proof (E o s) as H; rewrite_conj H)
  | |- context [close_complete ?s] =>
      progress (let H := fresh in pose proof (C s) as H; rewrite_conj H)
  | |- context [job_done ?j ?s] =>
      progress (let H := fresh in pose proof (J j s) as H; rewrite_conj H)
  end.


(** ** Lists of workers *)

Lemma sum_list_with_insert {A} (f : A -> nat) (l : list A) (i : nat) (x y : A) :
  l !! i = Some x ->
  (sum_list_with f (<[i := y]> l) + f x = sum_list_with f l + f y)%nat.
Proof.
  revert i. induction l as [|a l IH]; intros [|i] Hi; simplify_eq/=; [lia|].
  specialize (IH i Hi). lia.
Qed.

Lemma sum_list_with_snoc {A} (f : A -> nat) (l : list A) (x : A) :
  sum_list_with f (l ++ [x]) = (sum_list_with f l + f x)%nat.
Proof. rewrite sum_list_with_app. simpl. lia. Qed.

(** ** What the helpers leave alone *)

Lemma emit_frame (o : option (list output)) (s : state) :
  main (emit o s) = main s /\ producer (emit o s) = producer s
  /\ c_closed (emit o s) = c_closed s /\ workers (emit o s) = workers s
  /\ fs (emit o s) = fs s /\ opened (emit o s) = opened s
  /\ delivered (emit o s) = delivered s /\ closes (emit o s) = closes s
  /\ finished (emit o s) = finished s.
Proof. by destruct o. Qed.

Lemma close_complete_frame (s : state) :
  main (close_complete s) = main s
  /\ producer (close_complete s) = producer s
  /\ c_closed (close_complete s) = c_closed s
  /\ workers (close_complete s) = workers s
  /\ fs (close_complete s) = fs s /\ opened (close_complete s) = opened s
  /\ delivered (close_complete s) = delivered s
  /\ outs (close_complete s) = outs s
  /\ finished (close_complete s) = finished s.
Proof.
  unfold close_complete. destruct sink; [|done].
  by destruct (0 <? closes s)%nat.
Qed.

Lemma job_done_frame (job : DownloadJob) (s : state) :
  main (job_done job s) = main s /\ producer (job_done job s) = producer s
  /\ c_closed (job_done job s) = c_closed s
  /\ workers (job_done job s) = workers s
  /\ fs (job_done job s) = fs s /\ opened (job_done job s) = opened s
  /\ closes (job_done job s) = closes s
  /\ finished (job_done job s) = finished s ++ [job].
Proof.
  unfold job_done. destruct sink.
  - by destruct (0 <? closes s)%nat.
  - destruct (Error job); [|done].
    by destruct (option_map _ _).
Qed.

(** ** Every step decreases the measure *)

Lemma measure_decreases (a : action) (s s' : state) :
  exec1 a s = Some s' -> (measure s' < measure s)%nat.
Proof.
  intros H. step_cases H.
  all: unfold measure, return_nil; proj; frame_by emit_frame close_complete_frame job_done_frame;
    known; tests.
  all: rewrite ?sum_list_with_snoc.
  all: try match goal with
    | H : workers ?s !! ?w = Some ?x
      |- context [sum_list_with ?f (<[?w := ?y]> (workers ?s))] =>
        pose proof (sum_list_with_insert f _ _ _ y H)
    end.
  all: repeat match goal with
    | H : jobs !! _ = Some _ |- _ => apply lookup_lt_Some in H
    | H : jobs !! _ = None |- _ => apply lookup_ge_None in H
    end.
  all: cbn [main_measure producer_measure worker_measure pc] in *.
  all: lia.
Qed.

(** ** The logger does not panic *)

Lemma Dprintf_total (msg : string) : is_Some (Dprintf DebugMode g msg).
Proof.
  unfold Dprintf, Logf. destruct DebugMode; [|done].
  destruct (logger g); done.
Qed.

Lemma Errorf_failure (job : DownloadJob) (e : error) :
  Error job = Some e ->
  option_map (fun o => [o]) (Errorf mismatch_text g (Some e) (failure_text job))
  = option_map (fun o => [o]) (error_line job).
Proof.
  intros He. unfold Errorf, error_line, Logf, failure_text. rewrite He.
  destruct (logger g); simpl; done.
Qed.

Lemma run_invariant (P : state -> Prop) :
  (forall a s s', P s -> exec1 a s = Some s' -> P s') ->
  forall acts s s', P s -> run acts s = Some s' -> P s'.
Proof.
  intros Hstep acts. induction acts as [|a acts IH]; intros s s' HP; simpl.
  - by intros [= <-].
  - destruct (exec1 a s) as [s1|] eqn:Ha; [|done].
    apply IH. by eapply Hstep.
Qed.

Lemma count_done_all (ws : list worker) (w : nat) (wk : worker) :
  count_done ws = length ws -> ws !! w = Some wk -> is_done (pc wk) = true.
Proof.
  unfold count_done. revert w.
  induction ws as [|x ws IH]; intros w Hc Hw; [done|].
  assert (Hle : (sum_list_with (fun wk => if is_done (pc wk) then 1 else 0) ws
                 <= length ws)%nat).
  { clear. induction ws as [|y ws IH]; simpl; [lia|]. destruct (is_done (pc y)); lia. }
  simpl in Hc. destruct w as [|w]; simplify_eq/=.
  - destruct (is_done (pc wk)); [done|lia].
  - apply (IH w); [|done]. destruct (is_done (pc x)); lia.
Qed.

Lemma close_complete_effect (s : state) :
  closes s = 0%nat ->
  panicked (close_complete s) = panicked s
  /\ closes (close_complete s) = (if sink then 1 else 0)%nat.
Proof.
  intros Hz. unfold close_complete. rewrite Hz.
  destruct sink; split; try reflexivity. exact Hz.
Qed.

Lemma emit_Dprintf_effect (msg : string) (s : state) :
  panicked (emit (Dprintf DebugMode g msg) s) = panicked s
  /\ exists os, Dprintf DebugMode g msg = Some os
               /\ outs (emit (Dprintf DebugMode g msg) s) = outs s ++ os.
Proof.
  destruct (Dprintf_total msg) as [os Hos]. rewrite Hos. simpl. eauto.
Qed.

Lemma job_done_effect (job : DownloadJob) (s : state) :
  sink = false \/ closes s = 0%nat ->
  panicked (job_done job s) = panicked s
  /\ delivered (job_done job s)
     = (if sink then delivered s ++ [job] else delivered s)
  /\ outs (job_done job s)
     = (if sink then outs s else outs s ++ option_list (error_line job)).
Proof.
  intros Hs. unfold job_done. destruct sink.
  - destruct Hs as [?|Hs]; [done|]. by rewrite Hs.
  - destruct (Error job) as [e|] eqn:He.
    + rewrite (Errorf_failure job e He). unfold error_line. rewrite He.
      by destruct (logger g).
    + unfold error_line. rewrite He. simpl. by rewrite app_nil_r.
Qed.

Lemma count_done_le (ws : list worker) : (count_done ws <= length ws)%nat.
Proof.
  unfold count_done. induction ws as [|y ws IH]; simpl; [lia|].
  destruct (is_done (pc y)); lia.
Qed.

Lemma count_done_insert (ws : list worker) (w : nat) (x y : worker) :
  ws !! w = Some x ->
  (count_done (<[w := y]> ws) + (if is_done (pc x) then 1 else 0)
   = count_done ws + (if is_done (pc y) then 1 else 0))%nat.
Proof. apply sum_list_with_insert. Qed.

Lemma ctrl_inv_step (a : action) (s s' : state) :
  ctrl_inv s -> exec1 a s = Some s' -> ctrl_inv s'.
Proof.
  intros Hinv H. step_cases H.
  all: destruct Hinv as (Hp & Hc & Hcl & Hlp & Hpast & Hm).
  all: unfold ctrl_inv, return_nil, returned in *; proj;
       frame_by emit_frame close_complete_frame job_done_frame.
  all: try match goal with
    | |- context [main ?x] => destruct (main x) eqn:?
    end.
  all: known; tests.
  all: try match goal with
    | H : workers ?s !! ?w = Some ?x
      |- context [<[?w := ?y]> (workers ?s)] =>
        pose proof (count_done_insert _ _ _ y H);
        pose proof (proj1 (Forall_lookup _ _) Hpast _ _ H)
    end.
  all: rewrite ?length_insert, ?length_app; unfold count_done in *;
       rewrite ?sum_list_with_snoc; cbn [is_done past_loop pc length] in *.
  all: try match goal with
    | |- context [close_complete ?x] =>
        destruct (close_complete_effect x) as [-> ->]; [by rewrite Hc|]
    end.
  all: try match goal with
    | |- context [emit (Dprintf _ _ ?m) ?x] =>
        destruct (emit_Dprintf_effect m x) as [-> _]
    end.
  all: destruct_and?; destruct_or?; destruct_and?; simplify_eq.
  all: try match goal with
    | H1 : workers ?x = [], H2 : workers ?x !! _ = Some _ |- _ =>
        rewrite H1 in H2; discriminate H2
    end.
  all: try match goal with
    | Hall : sum_list_with _ (workers ?x) = length (workers ?x),
      H : workers ?x !! _ = Some _ |- _ =>
        let Hd := fresh in
        pose proof (count_done_all _ _ _ Hall H) as Hd; cbn in Hd;
        try discriminate Hd
    end.
  all: try match goal with
    | |- context [job_done ?j ?x] =>
        destruct (job_done_effect j x) as (-> & _ & _); [by right|]
    end.
  all: repeat match goal with
    | H : jobs !! _ = Some _ |- _ => apply lookup_lt_Some in H
    | H : jobs !! _ = None |- _ => apply lookup_ge_None in H
    | H : workers ?x = [] |- _ => rewrite H in *; clear H
    | H : length jobs = 0%nat |- _ => apply nil_length_inv in H
    end.
  all: pose proof (count_done_le (workers s)) as Hle; unfold count_done in Hle.
  all: repeat match goal with |- _ /\ _ => split end.
  all: try done.
  all: try lia.
  all: try (apply Forall_insert; [done | cbn; intros; try done; auto]).
  all: try (apply Forall_app; split; [done|by repeat constructor]).
  all: try (by apply Forall_forall).
  all: try (intros ? [= <-]; lia).
  all: try (by intros ->).
  all: try (split; [intros Hx; apply Hcl in Hx; discriminate Hx|discriminate]).
  all: try (by left).
  all: try (right; repeat split; try done; lia).
Qed.

Lemma ctrl_inv_initial (fs0 : gmap string (list Byte.byte)) :
  ctrl_inv (initial fs0).
Proof. unfold ctrl_inv; simpl. by repeat split. Qed.

(** ** No deadlock before the return *)

Lemma count_done_some_left (ws : list worker) :
  (count_done ws < length ws)%nat ->
  exists w wk, ws !! w = Some wk /\ is_done (pc wk) = false.
Proof.
  unfold count_done. induction ws as [|x ws IH]; simpl; [lia|].
  destruct (is_done (pc x)) eqn:Hx; intros Hlt.
  - destruct IH as (w & wk & Hw & Hd); [lia|]. by exists (S w), wk.
  - by exists 0%nat, x.
Qed.

Lemma progress (s : state) :
  ctrl_inv s -> returned s = false -> exists a s', exec1 a s = Some s'.
Proof.
  intros (Hp & Hc & Hcl & Hlp & Hpast & Hm) Hret.
  unfold returned in Hret. unfold exec1. rewrite Hp.
  destruct (main s) as [|i|i|] eqn:Hmain; [| | |done].
  - exists AMain. unfold main_step. rewrite Hmain.
    destruct (length jobs =? 0)%nat; eauto.
  - exists AMain. unfold main_step. rewrite Hmain.
    destruct (i <? DownloadThreads); eauto.
  - destruct (i <? DownloadThreads) eqn:Hi.
    2: { exists AMain. unfold main_step. rewrite Hmain, Hi. eauto. }
    destruct Hm as (Hi0 & Hlen & Hcnt & Hprod & Hjobs). tests.
    destruct (count_done_some_left (workers s)) as (w & [p ds] & Hw & Hd); [lia|].
    destruct p; try discriminate Hd.
    + destruct (c_closed s) eqn:Hclosed.
      * exists (AWorker w NoAnswer). unfold worker_step. rewrite Hw, Hclosed. eauto.
      * destruct (producer s) as [|k|] eqn:Hpr; [done| |].
        2: { destruct Hcl as [_ Hcl]. by specialize (Hcl eq_refl). }
        destruct (jobs !! k) as [job|] eqn:Hk.
        -- exists (ASend w). unfold producer_send. rewrite Hpr, Hw, Hk. eauto.
        -- exists ACloseC. unfold producer_close. rewrite Hpr, Hk. eauto.
    + exists (AWorker w NoAnswer). unfold worker_step. rewrite Hw. eauto.
    + exists (AWorker w (Got (inl (libError "")))). unfold worker_step.
      rewrite Hw. eauto.
    + exists (AWorker w (Created None)). unfold worker_step. rewrite Hw. eauto.
    + exists (AWorker w (Copied [] None)). unfold worker_step. rewrite Hw. eauto.
    + exists (AWorker w (Validated None)). unfold worker_step. rewrite Hw. eauto.
    + exists (AWorker w NoAnswer). unfold worker_step. rewrite Hw. eauto.
    + exists (AMainRecv w). unfold main_recv. rewrite Hmain, Hw.
      apply Z.ltb_lt in Hi. rewrite Hi. eauto.
Qed.

(** From every state of the skeleton the caller can be brought to its
    return. *)
Lemma can_return (s : state) :
  ctrl_inv s -> exists acts s', run acts s = Some s' /\ returned s' = true.
Proof.
  remember (measure s) as n eqn:Hn. revert s Hn.
  induction n as [n IH] using lt_wf_ind. intros s -> Hinv.
  destruct (returned s) eqn:Hret.
  - by exists [], s.
  - destruct (progress s Hinv Hret) as (a & s1 & Ha).
    destruct (IH (measure s1) (measure_decreases _ _ _ Ha) s1 eq_refl)
      as (acts & s' & Hrun & Hr).
    { by eapply ctrl_inv_step. }
    exists (a :: acts), s'. simpl. by rewrite Ha.
Qed.

(** ** The jobs in flight *)

Lemma bind_insert_perm {A B} (f : A -> list B) (ws : list A) (w : nat) (x y : A) :
  ws !! w = Some x ->
  (<[w := y]> ws ≫= f) ++ f x ≡ₚ (ws ≫= f) ++ f y.
Proof.
  revert w. induction ws as [|a ws IH]; intros [|w] Hw; simplify_eq/=.
  - rewrite (Permutation_app_comm (f y ++ _) (f x)).
    rewrite (Permutation_app_comm (f y) _). by rewrite (assoc_L (++)).
  - rewrite <- !(assoc_L (++)). by rewrite (IH w Hw).
Qed.

Lemma held_indices_insert (ws : list worker) (w : nat) (x y : worker) :
  ws !! w = Some x ->
  held_indices (<[w := y]> ws) ++ (Index <$> held (pc x))
  ≡ₚ held_indices ws ++ (Index <$> held (pc y)).
Proof. apply (bind_insert_perm (fun wk => Index <$> held (pc wk))). Qed.

Lemma held_indices_snoc (ws : list worker) (x : worker) :
  held_indices (ws ++ [x]) = held_indices ws ++ (Index <$> held (pc x)).
Proof.
  unfold held_indices. rewrite bind_app. simpl. by rewrite app_nil_r.
Qed.

Lemma positions_S (k : nat) :
  positions (S k) = positions k ++ [Z.of_nat k + 1].
Proof. unfold positions. by rewrite seq_S, fmap_app. Qed.

Lemma tagged_from_input (i : nat) (job : DownloadJob) :
  tagged i job -> from_input job.
Proof. intros (job0 & Hi & ->). exists i, job0. by repeat split. Qed.

Lemma from_input_set_Error (e : error) (job : DownloadJob) :
  from_input job -> from_input (set_Error e job).
Proof.
  intros (i & job0 & Hi & H). exists i, job0. split; [done|]. exact H.
Qed.

Lemma live_worker_not_returned (s : state) (w : nat) (wk : worker) :
  ctrl_inv s -> workers s !! w = Some wk -> is_done (pc wk) = false ->
  returned s = false /\ closes s = 0%nat.
Proof.
  intros (Hp & Hc & Hcl & Hlp & Hpast & Hm) Hw Hd.
  unfold returned in *. destruct (main s); try done.
  destruct Hm as [_ [(_ & Hnil & _)|(_ & _ & Hall & _)]].
  - by rewrite Hnil in Hw.
  - pose proof (count_done_all _ _ _ Hall Hw). congruence.
Qed.

Lemma data_inv_step (a : action) (s s' : state) :
  ctrl_inv s -> data_inv s -> exec1 a s = Some s' -> data_inv s'.
Proof.
  intros Hctrl Hinv H. step_cases H.
  all: destruct Hinv as (Hdel & Hperm & Hfin & Hwok).
  all: unfold data_inv, return_nil in *; proj;
       frame_by emit_frame close_complete_frame job_done_frame.
  all: try match goal with
    | H : workers ?x !! _ = Some _ |- context [job_done ?j ?x] =>
        destruct (live_worker_not_returned _ _ _ Hctrl H eq_refl) as [_ Hz];
        destruct (job_done_effect j x) as (_ & -> & _); [by right|]
    end.
  all: destruct Hctrl as (_ & _ & _ & Hlp & _ & Hm).
  all: known.
  all: try match goal with
    | H : workers ?s !! ?w = Some ?x
      |- context [<[?w := ?y]> (workers ?s)] =>
        pose proof (held_indices_insert _ _ _ y H) as Hheld;
        pose proof (proj1 (Forall_lookup _ _) Hwok _ _ H) as Hx;
        unfold worker_ok in Hx;
        cbn [held pc fmap list_fmap Index set_Error set_Index] in Hheld, Hx
    end.
  all: rewrite ?app_nil_r, ?held_indices_snoc in *.
  all: cbn [held pc fmap list_fmap] in *; rewrite ?app_nil_r in *.
  all: repeat match goal with |- _ /\ _ => split end.
  all: try done.
  all: try (apply Forall_insert; [done|]; unfold worker_ok; cbn [pc];
            try done;
            try match type of Hx with ex _ => destruct Hx as [k Hx] end;
            first [ exact (from_input_set_Error _ _ (tagged_from_input _ _ Hx))
                  | exact (tagged_from_input _ _ Hx)
                  | exact (from_input_set_Error _ _ Hx)
                  | by (eexists; eexists; split; [eassumption|reflexivity]) ]).
  all: try (apply Forall_app; split; [done|by repeat constructor]).
  all: try (by rewrite Hheld).
  all: try (apply Permutation_app_inv_r in Hheld; by rewrite Hheld).
  - destruct Hm as [Hpr _]. by rewrite Hpr in Hperm.
  - rewrite Hheld. cbn [sent] in *.
    rewrite positions_S, (assoc_L (++)). by rewrite Hperm.
  - cbn [sent] in *.
    match goal with H : jobs !! _ = None |- _ => apply lookup_ge_None in H end.
    specialize (Hlp _ eq_refl).
    by replace (length jobs) with i by lia.
  - rewrite Hdel. by destruct sink.
  - rewrite fmap_app, <- Hperm, <- Hheld, <- (assoc_L (++)).
    apply Permutation_app_head, Permutation_app_comm.
Qed.

Lemma data_inv_initial (fs0 : gmap string (list Byte.byte)) :
  data_inv (initial fs0).
Proof. unfold data_inv; simpl. repeat split; try done. by destruct sink. Qed.


(** ** The log *)

Lemma Dprintf_outputs (msg : string) (os : list output) :
  Dprintf DebugMode g msg = Some os ->
  filter (fun o => is_error_output o = true) os = []
  /\ Forall (fun o => DebugMode = true /\ is_debug_output o = true) os.
Proof.
  unfold Dprintf, Logf. destruct DebugMode; [|by intros [= <-]].
  destruct (logger g); simpl; intros [= <-].
  all: split; [reflexivity|].
  all: apply Forall_cons; split; [by split|constructor].
Qed.

Lemma error_line_is_error (job : DownloadJob) (o : output) :
  error_line job = Some o -> is_error_output o = true.
Proof.
  unfold error_line. destruct (Error job); [|done].
  by destruct (logger g); intros [= <-].
Qed.

Lemma filter_error_line (job : DownloadJob) :
  filter (fun o => is_error_output o = true) (option_list (error_line job))
  = option_list (error_line job).
Proof.
  destruct (error_line job) as [o|] eqn:Ho; [|done].
  simpl. rewrite filter_cons_True; [done|]. by eapply error_line_is_error.
Qed.

Lemma out_inv_step (a : action) (s s' : state) :
  ctrl_inv s -> out_inv s -> exec1 a s = Some s' -> out_inv s'.
Proof.
  intros Hctrl [Herr Hall] H. step_cases H.
  all: unfold out_inv, return_nil in *; proj;
       frame_by emit_frame close_complete_frame job_done_frame.
  all: try done.
  - destruct (emit_Dprintf_effect (progress_text job) s) as (_ & os & Hos & ->).
    destruct (Dprintf_outputs _ _ Hos) as [Hf Hd].
    rewrite filter_app, Hf, app_nil_r. split; [done|].
    apply Forall_app; split; [done|].
    eapply Forall_impl; [exact Hd|]. by right.
  - match goal with
    | H : workers _ !! _ = Some _ |- _ =>
        destruct (live_worker_not_returned _ _ _ Hctrl H eq_refl) as [_ Hz]
    end.
    destruct (job_done_effect job s) as (_ & _ & ->); [by right|].
    destruct sink; [done|].
    rewrite filter_app, filter_error_line, omap_app, Herr. split.
    + by f_equal.
    + apply Forall_app; split; [done|].
      destruct (error_line job) as [o|] eqn:Ho; [|constructor].
      apply Forall_cons; split; [|constructor].
      left. by eapply error_line_is_error.
Qed.

Lemma out_inv_initial (fs0 : gmap string (list Byte.byte)) :
  out_inv (initial fs0).
Proof. unfold out_inv; simpl. split; [by destruct sink|constructor]. Qed.

Lemma inv_reachable (fs0 : gmap string (list Byte.byte)) (s : state) :
  reachable fs0 s -> inv s.
Proof.
  intros [acts Hrun].
  apply (run_invariant inv) with (acts := acts) (s := initial fs0); [| |done].
  - intros a s1 s2 (Hc & Hd & Ho) Ha. split; [|split].
    + by eapply ctrl_inv_step.
    + by eapply data_inv_step.
    + by eapply out_inv_step.
  - split; [|split].
    + apply ctrl_inv_initial.
    + apply data_inv_initial.
    + apply out_inv_initial.
Qed.

Lemma run_app (acts1 acts2 : list action) (s : state) :
  run (acts1 ++ acts2) s
  = match run acts1 s with
    | Some s1 => run acts2 s1
    | None => None
    end.
Proof.
  revert s. induction acts1 as [|a acts1 IH]; intros s; simpl; [done|].
  by destruct (exec1 a s).
Qed.

Lemma reachable_run (fs0 : gmap string (list Byte.byte)) (acts : list action)
    (s s' : state) :
  reachable fs0 s -> run acts s = Some s' -> reachable fs0 s'.
Proof.
  intros [acts0 H0] H. exists (acts0 ++ acts). by rewrite run_app, H0.
Qed.

(** ** A worker is moved by its own actions only *)

Lemma others_keep_worker (a : action) (s s' : state) (w : nat) (wk : worker) :
  acts_on w a = false -> exec1 a s = Some s' ->
  workers s !! w = Some wk -> workers s' !! w = Some wk.
Proof.
  intros Hw H Hwk. step_cases H.
  all: unfold return_nil; proj;
       frame_by emit_frame close_complete_frame job_done_frame.
  all: cbn [acts_on] in Hw; tests.
  all: try done.
  all: try (by rewrite list_lookup_insert_ne).
  by apply lookup_app_l_Some.
Qed.

Lemma others_keep_worker_run (acts : list action) (s s' : state) (w : nat)
    (wk : worker) :
  Forall (fun a => acts_on w a = false) acts -> run acts s = Some s' ->
  workers s !! w = Some wk -> workers s' !! w = Some wk.
Proof.
  revert s. induction acts as [|a acts IH]; intros s Hall; simpl.
  - by intros [= <-].
  - apply Forall_cons in Hall as [Ha Hall].
    destruct (exec1 a s) as [s1|] eqn:H1; [|done].
    intros Hrun Hwk. apply (IH s1 Hall Hrun).
    by eapply others_keep_worker.
Qed.

(** ** The step at the label JobDone *)

Lemma job_done_step (fs0 : gmap string (list Byte.byte)) (s : state) (w : nat)
    (job : DownloadJob) (ds : list handle) :
  reachable fs0 s -> workers s !! w = Some (mkWorker (WJobDone job) ds) ->
  (forall ans s', exec1 (AWorker w ans) s = Some s' -> ans = NoAnswer)
  /\ exists s',
      exec1 (AWorker w NoAnswer) s = Some s'
      /\ workers s' !! w = Some (mkWorker WRange ds)
      /\ fs s' = fs s /\ opened s' = opened s
      /\ finished s' = finished s ++ [job]
      /\ delivered s' = (if sink then delivered s ++ [job] else delivered s)
      /\ outs s'
         = (if sink then outs s else outs s ++ option_list (error_line job)).
Proof.
  intros Hreach Hw. pose proof (inv_reachable _ _ Hreach) as (Hctrl & _ & _).
  destruct (live_worker_not_returned _ _ _ Hctrl Hw eq_refl) as [_ Hz].
  pose proof Hctrl as (Hp & _).
  unfold exec1. rewrite Hp. unfold worker_step. rewrite Hw. split.
  - intros ans s'. by destruct ans.
  - eexists. split; [done|].
    destruct (job_done_effect job s) as (_ & Hd & Ho); [by right|].
    destruct (job_done_frame job s) as (_ & _ & _ & Hws & Hfs & Hop & _ & Hfin).
    proj. rewrite Hws, Hfs, Hop, Hfin, Hd, Ho.
    repeat split; try done.
    apply list_lookup_insert_eq. by eapply lookup_lt_Some.
Qed.

(** ** Resources are released by the exit of a worker only *)

(** X24: no step closes a response body or a file except the last step of
    a worker goroutine, when its function ends and its deferred calls
    run: across every other step whatever is open stays open. *)
Lemma release_only_at_exit (a : action) (s s' : state) :
  exec1 a s = Some s' ->
  (forall h, h ∈ opened s -> h ∈ opened s')
  \/ exists w ds, a = AWorker w NoAnswer
                  /\ workers s !! w = Some (mkWorker WDefer ds).
Proof.
  intros H. step_cases H.
  all: unfold return_nil; proj;
       frame_by emit_frame close_complete_frame job_done_frame.
  all: try (by left).
  all: try (left; intros h0 Hh; by apply list_elem_of_further).
  right. eexists; eexists. split; [reflexivity|eassumption].
Qed.

(** ** The state at the return *)

Lemma all_done_hold_nothing (ws : list worker) :
  count_done ws = length ws -> held_indices ws = [].
Proof.
  intros Hall. unfold held_indices.
  assert (Hd : Forall (fun wk => is_done (pc wk) = true) ws).
  { apply Forall_lookup. intros w wk Hw. by eapply count_done_all. }
  clear Hall. induction Hd as [|wk ws Hwk _ IH]; [done|].
  change ((Index <$> held (pc wk))
          ++ (ws ≫= (fun wk => Index <$> held (pc wk))) = []).
  rewrite IH. by destruct (pc wk).
Qed.

Lemma returned_all_sent (s : state) :
  0 < DownloadThreads -> jobs <> [] -> ctrl_inv s -> returned s = true ->
  held_indices (workers s) = [] /\ sent (producer s) = length jobs.
Proof.
  intros HT Hjobs (Hp & Hc & Hcl & Hlp & Hpast & Hm) Hret.
  unfold returned in Hret. destruct (main s); try done.
  destruct Hm as [_ [(Hnil & _)|(_ & Hlen & Hall & _)]]; [done|].
  split; [by apply all_done_hold_nothing|].
  destruct (workers s) as [|wk ws] eqn:Hws; [simpl in Hlen; lia|].
  assert (Hd : is_done (pc wk) = true).
  { by apply (count_done_all (wk :: ws) 0%nat wk Hall). }
  apply Forall_cons in Hpast as [Hwk _].
  assert (Hclosed : c_closed s = true).
  { apply Hwk. by destruct (pc wk). }
  apply Hcl in Hclosed. by rewrite Hclosed.
Qed.

Lemma positions_length (n : nat) : length (positions n) = n.
Proof. unfold positions. by rewrite length_fmap, length_seq. Qed.

Lemma omap_error_line_length (js : list DownloadJob) :
  length (omap error_line js)
  = length (filter (fun job => Error job <> None) js).
Proof.
  induction js as [|job js IH]; [done|].
  change (omap error_line (job :: js))
    with (match error_line job with
          | Some o => o :: omap error_line js
          | None => omap error_line js
          end).
  unfold error_line at 1. destruct (Error job) as [e|] eqn:He.
  - rewrite filter_cons_True by (by rewrite He).
    destruct (logger g); simpl; by rewrite IH.
  - rewrite filter_cons_False by (rewrite He; by intros []). exact IH.
Qed.

Lemma filter_all {A} (P : A -> Prop) `{forall x, Decision (P x)} (l : list A) :
  Forall P l -> filter P l = l.
Proof.
  induction 1 as [|x l Hx _ IH]; [done|].
  by rewrite filter_cons_True, IH.
Qed.

(** ** The claims *)

(** C1, as the code has it: with at least one worker configured, a call
    with a non-empty list of N jobs and a result channel has, when it
    returns, sent exactly N jobs on the channel; their positions are
    exactly 1..N, and the job with position i+1 carries the fields of
    element i of the input. The call does return: from every state it can
    be in, the return is reached, and every step decreases [measure]. *)
Theorem every_job_delivered_once (fs0 : gmap string (list Byte.byte))
    (s : state) :
  0 < DownloadThreads -> sink = true -> jobs <> [] ->
  reachable fs0 s -> returned s = true ->
  length (delivered s) = length jobs
  /\ Index <$> delivered s ≡ₚ positions (length jobs)
  /\ Forall from_input (delivered s)
  /\ (forall s0, reachable fs0 s0 ->
        exists acts s', run acts s0 = Some s' /\ returned s' = true)
  /\ (forall a s0 s1, exec1 a s0 = Some s1 -> (measure s1 < measure s0)%nat).
Proof.
  intros HT Hsink Hjobs Hreach Hret.
  pose proof (inv_reachable _ _ Hreach) as (Hctrl & (Hdel & Hperm & Hfin & _) & _).
  destruct (returned_all_sent s HT Hjobs Hctrl Hret) as [Hheld Hsent].
  rewrite Hsink in Hdel. rewrite Hheld, app_nil_r, Hsent, <- Hdel in Hperm.
  rewrite <- Hdel in Hfin.
  split; [|split; [done|split; [done|split]]].
  - apply Permutation_length in Hperm.
    by rewrite length_fmap, positions_length in Hperm.
  - intros s0 Hs0. apply can_return. by apply (inv_reachable fs0).
  - apply measure_decreases.
Qed.

(** C2: with a result channel, [close(complete)] has run exactly once when
    the call has returned, not at all before, and the process never
    panics (a second close would); for an empty list the call returns at
    its first step with nothing sent, no producer and no worker started,
    and the result nil. The call does return from every state. *)
Theorem complete_closed_exactly_once (fs0 : gmap string (list Byte.byte))
    (s : state) :
  sink = true -> reachable fs0 s ->
  panicked s = false
  /\ closes s = (if returned s then 1 else 0)%nat
  /\ (jobs = [] -> returned s = true ->
        delivered s = [] /\ workers s = [] /\ producer s = PNotStarted
        /\ main s = MReturned None)
  /\ (jobs = [] ->
        exists s1, exec1 AMain (initial fs0) = Some s1 /\ returned s1 = true)
  /\ exists acts s', run acts s = Some s' /\ returned s' = true.
Proof.
  intros Hsink Hreach.
  pose proof (inv_reachable _ _ Hreach) as (Hctrl & (Hdel & Hperm & _) & _).
  pose proof Hctrl as (Hp & Hc & Hcl & Hlp & Hpast & Hm).
  split; [done|]. split; [by rewrite Hc, Hsink, andb_true_r|].
  split; [|split].
  - intros Hnil Hret. unfold returned in Hret.
    destruct (main s); try done.
    destruct Hm as [-> [(_ & Hws & Hpr)|(Hne & _)]]; [|done].
    repeat split; try done.
    rewrite Hsink in Hdel. rewrite Hpr, Hws in Hperm. simpl in Hperm.
    rewrite app_nil_r in Hperm. apply Permutation_nil_r in Hperm.
    apply fmap_nil_inv in Hperm. by rewrite Hdel.
  - intros Hnil. unfold exec1, main_step. simpl. rewrite Hnil. simpl.
    eexists. split; reflexivity.
  - by apply can_return.
Qed.

(** C8: whatever the list, with or without a result channel, the value
    [Download] returns is nil, and it does return. *)
Theorem Download_returns_nil (fs0 : gmap string (list Byte.byte)) (s : state) :
  reachable fs0 s ->
  (forall ret, main s = MReturned ret -> ret = None)
  /\ exists acts s', run acts s = Some s' /\ main s' = MReturned None.
Proof.
  intros Hreach. pose proof (inv_reachable _ _ Hreach) as (Hctrl & _).
  split.
  - intros ret Hmain. destruct Hctrl as (_ & _ & _ & _ & _ & Hm).
    rewrite Hmain in Hm. by destruct Hm.
  - destruct (can_return s Hctrl) as (acts & s' & Hrun & Hret).
    exists acts, s'. split; [done|].
    pose proof (inv_reachable _ _ (reachable_run _ _ _ _ Hreach Hrun))
      as ((_ & _ & _ & _ & _ & Hm) & _).
    unfold returned in Hret. destruct (main s'); try done.
    by destruct Hm as [-> _].
Qed.

(** C7, as the code has it: without a result channel, the error-severity
    writes are, in order, one line per job that passed [JobDone] with a
    non-nil [Error], each with the label and the text of the error, so K
    failed jobs leave exactly K of them; a job with a nil [Error] leaves
    none. Every other write is the debug-gated progress line, and there is
    none when [DebugMode] is off. Nothing is sent. *)
Theorem failures_logged_once (fs0 : gmap string (list Byte.byte)) (s : state) :
  sink = false -> reachable fs0 s ->
  filter (fun o => is_error_output o = true) (outs s)
  = omap error_line (finished s)
  /\ length (filter (fun o => is_error_output o = true) (outs s))
     = length (filter (fun job => Error job <> None) (finished s))
  /\ Forall (fun o => is_error_output o = true
                      \/ (DebugMode = true /\ is_debug_output o = true))
            (outs s)
  /\ (DebugMode = false -> outs s = omap error_line (finished s))
  /\ delivered s = [].
Proof.
  intros Hsink Hreach.
  pose proof (inv_reachable _ _ Hreach) as (_ & (Hdel & _) & (Herr & Hall)).
  rewrite Hsink in Herr, Hdel.
  split; [done|]. split; [by rewrite Herr, omap_error_line_length|].
  split; [done|]. split; [|done].
  intros Hdbg. rewrite <- Herr. symmetry. apply filter_all.
  eapply Forall_impl; [exact Hall|].
  intros o [Ho|[Hd _]]; [done|congruence].
Qed.

(** C4, as the code has it: the position a caller set is ignored, every
    job sent on the channel has the position of its place in the list and
    the caller's other fields; the [Error] a caller set is not: a job
    that reaches the checksum validation is still the caller's job with
    only [Index] replaced, and when the validation succeeds it is sent
    unchanged, with the [Error] it came in with. *)
Theorem position_assigned_outcome_kept (fs0 : gmap string (list Byte.byte))
    (s : state) (w : nat) (job : DownloadJob) (ds : list handle) :
  reachable fs0 s ->
  workers s !! w = Some (mkWorker (WVerify job) ds) ->
  Forall from_input (delivered s)
  /\ (exists i, tagged i job)
  /\ exists s1,
      exec1 (AWorker w (Validated None)) s = Some s1
      /\ workers s1 !! w = Some (mkWorker (WJobDone job) ds)
      /\ forall acts s2,
          run acts s1 = Some s2 ->
          Forall (fun a => acts_on w a = false) acts ->
          exists s3,
            exec1 (AWorker w NoAnswer) s2 = Some s3
            /\ delivered s3
               = (if sink then delivered s2 ++ [job] else delivered s2).
Proof.
  intros Hreach Hw.
  pose proof (inv_reachable _ _ Hreach)
    as ((Hp & _) & (Hdel & _ & Hfin & Hwok) & _).
  split; [|split].
  - rewrite Hdel. destruct sink; [done|constructor].
  - exact (proj1 (Forall_lookup _ _) Hwok _ _ Hw).
  - assert (H1 : exec1 (AWorker w (Validated None)) s
                 = Some (set_worker w (WJobDone job) ds s)).
    { unfold exec1. rewrite Hp. unfold worker_step. by rewrite Hw. }
    eexists. split; [exact H1|]. split.
    { proj. apply list_lookup_insert_eq. by eapply lookup_lt_Some. }
    intros acts s2 Hrun Hothers.
    assert (Hreach2 : reachable fs0 s2).
    { eapply reachable_run; [|exact Hrun].
      eapply (reachable_run fs0 [_]); [exact Hreach|]. simpl. by rewrite H1. }
    assert (Hw2 : workers s2 !! w = Some (mkWorker (WJobDone job) ds)).
    { eapply others_keep_worker_run; [exact Hothers|exact Hrun|].
      proj. apply list_lookup_insert_eq. by eapply lookup_lt_Some. }
    destruct (job_done_step fs0 s2 w job ds Hreach2 Hw2)
      as (_ & s3 & H3 & _ & _ & _ & _ & Hd3 & _).
    by exists s3.
Qed.



(** ** Further properties of the engine *)

Lemma run_measure (acts : list action) (s s' : state) :
  run acts s = Some s' -> (length acts + measure s' <= measure s)%nat.
Proof.
  revert s. induction acts as [|a acts IH]; intros s; simpl.
  - intros [= <-]. lia.
  - destruct (exec1 a s) as [s1|] eqn:Ha; [|done]. intros Hrun.
    pose proof (measure_decreases _ _ _ Ha). specialize (IH _ Hrun). lia.
Qed.

Lemma positions_NoDup (n : nat) : NoDup (positions n).
Proof.
  unfold positions. apply NoDup_fmap_2; [|apply NoDup_seq].
  intros i j Hij. lia.
Qed.

Lemma positions_range (n : nat) (i : Z) :
  i ∈ positions n -> 1 <= i <= Z.of_nat n.
Proof.
  unfold positions. intros (k & -> & Hk)%list_elem_of_fmap.
  apply elem_of_seq in Hk. lia.
Qed.

(** X9: a call makes at most 7 N + 5 T + 4 steps, for N jobs and T
    configured workers, whatever the interleaving and whatever the network
    and the file system answer. *)
Theorem run_length_bounded (fs0 : gmap string (list Byte.byte))
    (acts : list action) (s : state) :
  run acts (initial fs0) = Some s ->
  (length acts <= 7 * length jobs + 5 * Z.to_nat DownloadThreads + 4)%nat.
Proof.
  intros Hrun. pose proof (run_measure _ _ _ Hrun) as Hm.
  unfold measure at 2 in Hm. simpl in Hm. lia.
Qed.

(** X10: no deadlock: as long as [Download] has not returned, some
    goroutine can make a step (the result channel being always read). *)
Theorem no_deadlock_before_return (fs0 : gmap string (list Byte.byte))
    (s : state) :
  reachable fs0 s -> returned s = false ->
  exists a s', exec1 a s = Some s'.
Proof.
  intros Hreach Hret. apply progress; [|done].
  by destruct (inv_reachable _ _ Hreach).
Qed.

(** X11: the process never panics: no send on a closed result channel, no
    second [close], no panic of the logger; [complete] is closed at most
    once, and never when it is nil. *)
Theorem Download_never_panics (fs0 : gmap string (list Byte.byte)) (s : state) :
  reachable fs0 s ->
  panicked s = false /\ (closes s <= 1)%nat
  /\ (sink = false -> closes s = 0%nat).
Proof.
  intros Hreach.
  pose proof (inv_reachable _ _ Hreach) as ((Hp & Hc & _) & _).
  split; [done|]. rewrite Hc. split.
  - destruct (returned s && sink); lia.
  - intros ->. by rewrite andb_false_r.
Qed.

(** X12: exclusive ownership: at every moment the positions of the jobs
    that have passed [JobDone] and of the jobs the workers hold are
    pairwise distinct and lie in 1..N: no job is handled twice, held by
    two workers, or held after it was handed over; in particular no
    position is sent twice on the result channel. *)
Theorem jobs_owned_exclusively (fs0 : gmap string (list Byte.byte)) (s : state) :
  reachable fs0 s ->
  NoDup ((Index <$> finished s) ++ held_indices (workers s))
  /\ Forall (fun i => 1 <= i <= Z.of_nat (length jobs))
            ((Index <$> finished s) ++ held_indices (workers s))
  /\ NoDup (Index <$> delivered s).
Proof.
  intros Hreach.
  pose proof (inv_reachable _ _ Hreach)
    as ((_ & _ & Hcl & Hlp & _) & (Hdel & Hperm & _) & _).
  assert (Hsent : (sent (producer s) <= length jobs)%nat).
  { destruct (producer s) eqn:Hpr; simpl; [lia|by apply Hlp|lia]. }
  assert (Hnd : NoDup ((Index <$> finished s) ++ held_indices (workers s))).
  { rewrite Hperm. apply positions_NoDup. }
  split; [done|]. split.
  - apply Forall_forall. intros i Hi. rewrite Hperm in Hi.
    apply positions_range in Hi. lia.
  - rewrite Hdel. destruct sink; [|constructor].
    by apply NoDup_app in Hnd as [Hnd _].
Qed.

(** X13: with at least one worker, with or without a result channel, when
    [Download] returns every job has passed [JobDone] exactly once, the
    producer has finished and the work channel is closed. *)
Theorem every_job_finished_at_return (fs0 : gmap string (list Byte.byte))
    (s : state) :
  0 < DownloadThreads -> jobs <> [] ->
  reachable fs0 s -> returned s = true ->
  Index <$> finished s ≡ₚ positions (length jobs)
  /\ Forall from_input (finished s)
  /\ producer s = PExited /\ c_closed s = true.
Proof.
  intros HT Hjobs Hreach Hret.
  pose proof (inv_reachable _ _ Hreach) as (Hctrl & (_ & Hperm & Hfin & _) & _).
  destruct (returned_all_sent s HT Hjobs Hctrl Hret) as [Hheld Hsent].
  rewrite Hheld, app_nil_r, Hsent in Hperm.
  split; [done|]. split; [done|].
  destruct Hctrl as (_ & _ & Hcl & _ & Hpast & Hm).
  unfold returned in Hret. destruct (main s); try done.
  destruct Hm as [_ [(Hnil & _)|(_ & Hlen & Hall & _)]]; [done|].
  destruct (workers s) as [|wk ws] eqn:Hws; [simpl in Hlen; lia|].
  assert (Hd : is_done (pc wk) = true).
  { by apply (count_done_all (wk :: ws) 0%nat wk Hall). }
  apply Forall_cons in Hpast as [Hwk _].
  assert (Hclosed : c_closed s = true).
  { apply Hwk. by destruct (pc wk). }
  split; [by apply Hcl|done].
Qed.

(** X14: never more workers than configured: the number of consumer
    goroutines started is at most [DownloadThreads] (none when it is not
    positive). *)
Theorem workers_bounded (fs0 : gmap string (list Byte.byte)) (s : state) :
  reachable fs0 s -> (length (workers s) <= Z.to_nat DownloadThreads)%nat.
Proof.
  intros Hreach.
  pose proof (inv_reachable _ _ Hreach) as ((_ & _ & _ & _ & _ & Hm) & _).
  destruct (main s).
  - destruct Hm as [_ ->]. simpl. lia.
  - destruct Hm as (? & ? & -> & _). lia.
  - destruct Hm as (? & -> & _). lia.
  - destruct Hm as [_ [(_ & -> & _)|(_ & -> & _)]]; simpl; lia.
Qed.

Lemma idle_step (fs0 : gmap string (list Byte.byte)) (a : action)
    (s s' : state) :
  DownloadThreads <= 0 -> jobs <> [] ->
  ctrl_inv s -> idle fs0 s -> exec1 a s = Some s' -> idle fs0 s'.
Proof.
  intros HT Hjobs Hctrl (Hws & Hfin & Hdel & Hout & Hfs & Hop & Hcl & Hpr) H.
  step_cases H.
  all: try match goal with
    | H2 : workers ?x !! _ = Some _ |- _ => rewrite Hws in H2; discriminate H2
    end.
  all: destruct Hctrl as (_ & _ & _ & _ & _ & Hm).
  all: unfold idle, return_nil; proj;
       frame_by emit_frame close_complete_frame job_done_frame; known; tests.
  all: try (repeat split; try done; by right).
  - destruct Hm as (Hi & _). lia.
  - destruct Hpr as [Hpr|Hpr]; [discriminate Hpr|].
    injection Hpr as ->. destruct jobs; [done|discriminate].
Qed.

(** X15: without a worker nothing is ever done: when [DownloadThreads] is
    not positive and the list is not empty, no consumer exists, no job is
    handed over, nothing is sent, logged, opened or written, and the
    producer stays blocked on its first send with the work channel
    open. *)
Theorem no_worker_nothing_happens (fs0 : gmap string (list Byte.byte))
    (s : state) :
  DownloadThreads <= 0 -> jobs <> [] -> reachable fs0 s ->
  workers s = [] /\ finished s = [] /\ delivered s = [] /\ outs s = []
  /\ fs s = fs0 /\ opened s = [] /\ c_closed s = false
  /\ (producer s = PNotStarted \/ producer s = PLoop 0).
Proof.
  intros HT Hjobs [acts Hrun].
  assert (Hboth : ctrl_inv s /\ idle fs0 s); [|by destruct Hboth].
  apply (run_invariant (fun s => ctrl_inv s /\ idle fs0 s))
    with (acts := acts) (s := initial fs0); [| |done].
  - intros a s1 s2 [Hc Hi] Ha. split.
    + by eapply ctrl_inv_step.
    + by eapply idle_step.
  - split; [apply ctrl_inv_initial|]. unfold idle. simpl.
    repeat split; try done. by left.
Qed.



Lemma settled_step (a : action) (s s' : state) :
  ctrl_inv s -> returned s = true -> exec1 a s = Some s' ->
  delivered s' = delivered s /\ finished s' = finished s /\ fs s' = fs s
  /\ outs s' = outs s /\ closes s' = closes s /\ main s' = main s.
Proof.
  intros (_ & _ & _ & _ & _ & Hm) Hret H. unfold returned in Hret.
  destruct (main s) as [| | |ret] eqn:Hmain; try discriminate Hret.
  step_cases H.
  all: try congruence.
  all: destruct Hm as [_ [(_ & Hnil & _)|(_ & _ & Hall & _)]].
  all: try match goal with
    | H2 : workers ?x !! _ = Some _ |- _ => rewrite Hnil in H2; discriminate H2
    end.
  all: try match goal with
    | H2 : workers ?x !! _ = Some _ |- _ =>
        let Hd := fresh in
        pose proof (count_done_all _ _ _ Hall H2) as Hd; cbn in Hd;
        try discriminate Hd
    end.
  all: proj; by repeat split.
Qed.

(** X17: once [Download] has returned nothing more happens that a caller
    can see: whatever step is still taken (a worker running its deferred
    calls), nothing is sent, logged or written, no job passes [JobDone],
    and the result channel is not closed again. *)
Theorem nothing_after_return (fs0 : gmap string (list Byte.byte))
    (a : action) (s s' : state) :
  reachable fs0 s -> returned s = true -> exec1 a s = Some s' ->
  delivered s' = delivered s /\ finished s' = finished s /\ fs s' = fs s
  /\ outs s' = outs s /\ closes s' = closes s /\ returned s' = true.
Proof.
  intros Hreach Hret Ha.
  pose proof (inv_reachable _ _ Hreach) as (Hctrl & _).
  destruct (settled_step a s s' Hctrl Hret Ha) as (H1 & H2 & H3 & H4 & H5 & H6).
  repeat split; try done. unfold returned in *. by rewrite H6.
Qed.

(** ** The stages of a job, one step each *)

Lemma own_step (fs0 : gmap string (list Byte.byte)) (s : state) (w : nat)
    (ans : answer) :
  reachable fs0 s -> exec1 (AWorker w ans) s = worker_step w ans s.
Proof.
  intros Hreach. pose proof (inv_reachable _ _ Hreach) as ((Hp & _) & _).
  unfold exec1. by rewrite Hp.
Qed.

Lemma insert_own (ws : list worker) (w : nat) (x y : worker) :
  ws !! w = Some x -> <[w := y]> ws !! w = Some y.
Proof. intros Hw. apply list_lookup_insert_eq. by eapply lookup_lt_Some. Qed.




(** X21: the checksum validation changes nothing but the job's [Error]:
    whatever its verdict, the file stays as it was written (a file whose
    digest does not match is not removed), nothing is opened or closed,
    logged or sent. *)
Theorem validation_leaves_file (fs0 : gmap string (list Byte.byte))
    (s : state) (w : nat) (job : DownloadJob) (ds : list handle)
    (err : option error) :
  reachable fs0 s -> workers s !! w = Some (mkWorker (WVerify job) ds) ->
  exists s1,
    exec1 (AWorker w (Validated err)) s = Some s1
    /\ fs s1 = fs s /\ opened s1 = opened s /\ outs s1 = outs s
    /\ delivered s1 = delivered s /\ finished s1 = finished s.
Proof.
  intros Hreach Hw. rewrite (own_step fs0) by done.
  unfold worker_step. rewrite Hw.
  destruct err as [[| |]|]; eexists; (split; [done|]); by proj.
Qed.


(** X23: the end of a worker: the last step of a worker goroutine closes
    every resource it has deferred, and nothing else happens in that
    step. *)
Theorem worker_exit_releases (fs0 : gmap string (list Byte.byte))
    (s : state) (w : nat) (ds : list handle) :
  reachable fs0 s -> workers s !! w = Some (mkWorker WDefer ds) ->
  exists s1,
    exec1 (AWorker w NoAnswer) s = Some s1
    /\ workers s1 !! w = Some (mkWorker WDead [])
    /\ (forall h, h ∈ ds -> h ∉ opened s1)
    /\ (forall h, h ∉ ds -> h ∈ opened s -> h ∈ opened s1)
    /\ fs s1 = fs s /\ outs s1 = outs s /\ delivered s1 = delivered s.
Proof.
  intros Hreach Hw. rewrite (own_step fs0) by done.
  unfold worker_step. rewrite Hw. eexists. split; [done|]. proj.
  split; [by eapply insert_own|]. split; [|split; [|done]].
  - intros h Hh Hin. apply list_elem_of_difference in Hin. by destruct Hin.
  - intros h Hh Hin. by apply list_elem_of_difference.
Qed.

End Run.

(** ** The claims on concrete runs *)

Import Scenario.

(** C1 as stated fails: with no worker configured, a call with one job and
    a result channel returns with nothing sent. *)
Lemma no_worker_nothing_delivered :
  exists s,
    run 0 false byte_size "" globals0 [job_a] true boot (initial no_files)
    = Some s
    /\ returned s = true /\ delivered s = []
    /\ length (delivered s) <> length [job_a].
Proof. eexists. split; [vm_compute; reflexivity|]. by repeat split. Qed.

Lemma every_job_delivered_once_witness :
  exists s,
    run 1 false byte_size "" globals0 [job_a] true
        (boot ++ take ++ fetch_and_store ++ validate_and_report ++ wind_up)
        (initial no_files) = Some s
    /\ returned s = true
    /\ length (delivered s) = 1%nat
    /\ Index <$> delivered s ≡ₚ [1].
Proof.
  eexists. split; [vm_compute; reflexivity|]. split; [reflexivity|].
  edestruct (every_job_delivered_once 1 false byte_size "" globals0 [job_a]
               true no_files) as (Hlen & Hperm & _).
  - reflexivity.
  - reflexivity.
  - discriminate.
  - exists (boot ++ take ++ fetch_and_store ++ validate_and_report ++ wind_up).
    vm_compute. reflexivity.
  - reflexivity.
  - split; [exact Hlen|exact Hperm].
Defined.

Lemma complete_closed_exactly_once_witness :
  exists s,
    run 1 false byte_size "" globals0 [] true [AMain] (initial no_files)
    = Some s
    /\ panicked s = false /\ closes s = 1%nat /\ delivered s = []
    /\ workers s = [] /\ producer s = PNotStarted.
Proof.
  eexists. split; [vm_compute; reflexivity|].
  edestruct (complete_closed_exactly_once 1 false byte_size "" globals0 []
               true no_files) as (Hp & Hc & Hempty & _).
  - reflexivity.
  - exists [AMain]. vm_compute. reflexivity.
  - destruct (Hempty eq_refl eq_refl) as (Hd & Hw & Hpr & _).
    split; [exact Hp|]. split; [exact Hc|]. split; [exact Hd|].
    split; [exact Hw|exact Hpr].
Defined.

Lemma Download_returns_nil_witness :
  exists s,
    run 1 false byte_size "" globals0 [job_a] false
        (boot ++ take ++ fetch_404 ++ wind_up) (initial no_files) = Some s
    /\ forall ret, main s = MReturned ret -> ret = None.
Proof.
  eexists. split; [vm_compute; reflexivity|].
  edestruct (Download_returns_nil 1 false byte_size "" globals0 [job_a]
               false no_files) as (Hnil & _).
  - exists (boot ++ take ++ fetch_404 ++ wind_up). vm_compute. reflexivity.
  - exact Hnil.
Defined.

(** C3 on a run: one worker, two jobs. When the worker has received the
    second job, the body and the file of the first are still open; when
    [Download] has returned, all four resources are still open: the
    deferred calls run when the goroutine ends, not when the job does. *)
Theorem deferred_close_outlives_job :
  (exists s,
     run 1 false byte_size "" globals0 [job_a; job_b] true
         (boot ++ take ++ fetch_and_store ++ validate_and_report
          ++ [ASend 0%nat]) (initial no_files) = Some s
     /\ workers s
        = [mkWorker (WDprintf (set_Index 2 job_b)) [OutFile 1; Body 1]]
     /\ opened s = [OutFile 1; Body 1])
  /\ (exists s,
       run 1 false byte_size "" globals0 [job_a; job_b] true
           (boot ++ take ++ fetch_and_store ++ validate_and_report
            ++ take ++ fetch_and_store ++ validate_and_report ++ wind_up)
           (initial no_files) = Some s
       /\ returned s = true
       /\ length (delivered s) = 2%nat
       /\ opened s = [OutFile 2; Body 2; OutFile 1; Body 1]).
Proof.
  split; eexists; (split; [vm_compute; reflexivity|]); by repeat split.
Qed.

(** C7 as stated fails: with [DebugMode] on and no result channel, a job
    that succeeds leaves a line. *)
Lemma succeeding_job_leaves_debug_line :
  exists s,
    run 1 true byte_size "" globals0 [job_a] false
        (boot ++ take ++ fetch_and_store ++ validate_and_report ++ wind_up)
        (initial no_files) = Some s
    /\ returned s = true
    /\ finished s = [set_Index 1 job_a]
    /\ Error (set_Index 1 job_a) = None
    /\ outs s = [ToStderr ("DEBUG: [ 1 / 1 ] Downloading a.rpm (1024B)..."
                           +:+ nl)]
    /\ outs s <> [].
Proof. eexists. split; [vm_compute; reflexivity|]. by repeat split. Qed.

Lemma failures_logged_once_witness :
  exists s,
    run 1 false byte_size "" globals0 [job_a] false
        (boot ++ take ++ fetch_404 ++ wind_up) (initial no_files) = Some s
    /\ outs s
       = [ToStderr ("ERROR: Error downloading a.rpm: Bad status: 404 Not Found"
                    +:+ nl)]
    /\ length (filter (fun o => is_error_output o = true) (outs s))
       = length (filter (fun job => Error job <> None) (finished s)).
Proof.
  eexists. split; [vm_compute; reflexivity|]. split; [reflexivity|].
  edestruct (failures_logged_once 1 false byte_size "" globals0 [job_a]
               false no_files) as (_ & Hlen & _).
  - reflexivity.
  - exists (boot ++ take ++ fetch_404 ++ wind_up). vm_compute. reflexivity.
  - exact Hlen.
Defined.

(** C4 as stated fails: a job handed in with [Error] set, whose every
    stage succeeds, is sent with that [Error]; its [Index] is replaced. *)
Lemma stale_outcome_delivered :
  exists s,
    run 1 false byte_size "" globals0 [job_stale] true
        (boot ++ take ++ fetch_and_store ++ validate_and_report ++ wind_up)
        (initial no_files) = Some s
    /\ returned s = true
    /\ delivered s = [set_Index 1 job_stale]
    /\ Forall (fun job => Error job = Some (libError "stale")
                          /\ Error job <> None /\ Index job = 1)
              (delivered s).
Proof.
  eexists. split; [vm_compute; reflexivity|]. split; [reflexivity|].
  split; [reflexivity|]. by repeat constructor.
Qed.

Lemma position_assigned_outcome_kept_witness :
  exists s,
    run 1 false byte_size "" globals0 [job_stale] true
        (boot ++ take ++ fetch_and_store) (initial no_files) = Some s
    /\ workers s !! 0%nat
       = Some (mkWorker (WVerify (set_Index 1 job_stale))
                        [OutFile 1; Body 1])
    /\ exists i, tagged [job_stale] i (set_Index 1 job_stale).
Proof.
  eexists. split; [vm_compute; reflexivity|]. split; [reflexivity|].
  edestruct (position_assigned_outcome_kept 1 false byte_size "" globals0
               [job_stale] true no_files) with (w := 0%nat) as (_ & Htag & _).
  - exists (boot ++ take ++ fetch_and_store). vm_compute. reflexivity.
  - reflexivity.
  - exact Htag.
Defined.



(** ** Witnesses of the further properties *)

Lemma run_length_bounded_witness :
  (length (boot ++ take ++ fetch_404 ++ wind_up)
   <= 7 * length [job_a] + 5 * Z.to_nat 1 + 4)%nat.
Proof.
  eapply (run_length_bounded 1 false byte_size "" globals0 [job_a] true
            no_files).
  vm_compute. reflexivity.
Defined.

Lemma no_deadlock_before_return_witness :
  exists s a s',
    run 1 false byte_size "" globals0 [job_a] true (boot ++ take)
        (initial no_files) = Some s
    /\ exec1 1 false byte_size "" globals0 [job_a] true a s = Some s'.
Proof.
  eexists.
  edestruct (no_deadlock_before_return 1 false byte_size "" globals0 [job_a]
               true no_files) as (a & s' & Ha).
  - exists (boot ++ take). vm_compute. reflexivity.
  - reflexivity.
  - exists a, s'. split; [vm_compute; reflexivity|exact Ha].
Defined.

Lemma Download_never_panics_witness :
  exists s,
    run 1 false byte_size "" globals0 [job_a] true
        (boot ++ take ++ fetch_404 ++ wind_up) (initial no_files) = Some s
    /\ panicked s = false /\ (closes s <= 1)%nat.
Proof.
  eexists. split; [vm_compute; reflexivity|].
  edestruct (Download_never_panics 1 false byte_size "" globals0 [job_a]
               true no_files) as (Hp & Hc & _).
  - exists (boot ++ take ++ fetch_404 ++ wind_up). vm_compute. reflexivity.
  - split; [exact Hp|exact Hc].
Defined.

Lemma jobs_owned_exclusively_witness :
  exists s,
    run 1 false byte_size "" globals0 [job_a; job_b] true
        (boot ++ take ++ fetch_404 ++ take) (initial no_files) = Some s
    /\ NoDup ((Index <$> finished s) ++ held_indices (workers s))
    /\ NoDup (Index <$> delivered s).
Proof.
  eexists. split; [vm_compute; reflexivity|].
  edestruct (jobs_owned_exclusively 1 false byte_size "" globals0
               [job_a; job_b] true no_files) as (H1 & _ & H3).
  - exists (boot ++ take ++ fetch_404 ++ take). vm_compute. reflexivity.
  - split; [exact H1|exact H3].
Defined.

Lemma every_job_finished_at_return_witness :
  exists s,
    run 1 false byte_size "" globals0 [job_a] false
        (boot ++ take ++ fetch_404 ++ wind_up) (initial no_files) = Some s
    /\ Index <$> finished s ≡ₚ [1]
    /\ producer s = PExited /\ c_closed s = true.
Proof.
  eexists. split; [vm_compute; reflexivity|].
  edestruct (every_job_finished_at_return 1 false byte_size "" globals0
               [job_a] false no_files) as (H1 & _ & H3 & H4).
  - reflexivity.
  - discriminate.
  - exists (boot ++ take ++ fetch_404 ++ wind_up). vm_compute. reflexivity.
  - reflexivity.
  - split; [exact H1|]. split; [exact H3|exact H4].
Defined.

Lemma workers_bounded_witness :
  exists s,
    run 1 false byte_size "" globals0 [job_a] true (boot ++ take)
        (initial no_files) = Some s
    /\ (length (workers s) <= Z.to_nat 1)%nat.
Proof.
  eexists. split; [vm_compute; reflexivity|].
  eapply (workers_bounded 1 false byte_size "" globals0 [job_a] true no_files).
  exists (boot ++ take). vm_compute. reflexivity.
Defined.

Lemma no_worker_nothing_happens_witness :
  exists s,
    run 0 false byte_size "" globals0 [job_a] true boot (initial no_files)
    = Some s
    /\ workers s = [] /\ finished s = [] /\ fs s = no_files
    /\ c_closed s = false.
Proof.
  eexists. split; [vm_compute; reflexivity|].
  edestruct (no_worker_nothing_happens 0 false byte_size "" globals0 [job_a]
               true no_files) as (H1 & H2 & _ & _ & H5 & _ & H7 & _).
  - discriminate.
  - discriminate.
  - exists boot. vm_compute. reflexivity.
  - split; [exact H1|]. split; [exact H2|]. split; [exact H5|exact H7].
Defined.


Lemma nothing_after_return_witness :
  exists s s',
    run 1 false byte_size "" globals0 [job_a] true
        (boot ++ take ++ fetch_404 ++ wind_up) (initial no_files) = Some s
    /\ exec1 1 false byte_size "" globals0 [job_a] true
             (AWorker 0%nat NoAnswer) s = Some s'
    /\ delivered s' = delivered s /\ fs s' = fs s.
Proof.
  eexists. eexists. split; [vm_compute; reflexivity|].
  split; [vm_compute; reflexivity|].
  edestruct (nothing_after_return 1 false byte_size "" globals0 [job_a] true
               no_files (AWorker 0%nat NoAnswer)) as (H1 & _ & H3 & _).
  - exists (boot ++ take ++ fetch_404 ++ wind_up). vm_compute. reflexivity.
  - reflexivity.
  - vm_compute. reflexivity.
  - split; [exact H1|exact H3].
Defined.

Lemma release_only_at_exit_witness :
  exists s s',
    run 1 false byte_size "" globals0 [job_a] true
        (boot ++ take ++ fetch_404) (initial no_files) = Some s
    /\ exec1 1 false byte_size "" globals0 [job_a] true ACloseC s = Some s'
    /\ (forall h, h ∈ opened s -> h ∈ opened s').
Proof.
  eexists. eexists. split; [vm_compute; reflexivity|].
  split; [vm_compute; reflexivity|].
  match goal with
  | |- forall h, h ∈ opened ?s -> h ∈ opened ?s' =>
      destruct (release_only_at_exit 1 false byte_size "" globals0 [job_a]
                  true ACloseC s s') as [Hkeep|(w & ds & Ha & _)]
  end.
  - vm_compute. reflexivity.
  - exact Hkeep.
  - discriminate Ha.
Defined.




Lemma validation_leaves_file_witness :
  exists s s1,
    run 1 false byte_size "" globals0 [job_a] true
        (boot ++ take ++ fetch_and_store) (initial no_files) = Some s
    /\ exec1 1 false byte_size "" globals0 [job_a] true
             (AWorker 0%nat (Validated (Some ErrChecksumMismatch))) s
       = Some s1
    /\ fs s1 = fs s.
Proof.
  eexists.
  edestruct (validation_leaves_file 1 false byte_size "" globals0
               [job_a] true no_files) with (w := 0%nat)
    (err := Some ErrChecksumMismatch) as (s1 & H1 & Hfs & _).
  - exists (boot ++ take ++ fetch_and_store). vm_compute. reflexivity.
  - reflexivity.
  - exists s1. split; [vm_compute; reflexivity|]. split; [exact H1|exact Hfs].
Defined.


Lemma worker_exit_releases_witness :
  exists s s1,
    run 1 false byte_size "" globals0 [job_a] true
        (boot ++ take ++ fetch_404 ++ wind_up) (initial no_files) = Some s
    /\ exec1 1 false byte_size "" globals0 [job_a] true
             (AWorker 0%nat NoAnswer) s = Some s1
    /\ workers s1 !! 0%nat = Some (mkWorker WDead []).
Proof.
  eexists.
  edestruct (worker_exit_releases 1 false byte_size "" globals0
               [job_a] true no_files) with (w := 0%nat)
    as (s1 & H1 & Hw & _).
  - exists (boot ++ take ++ fetch_404 ++ wind_up). vm_compute. reflexivity.
  - reflexivity.
  - exists s1. split; [vm_compute; reflexivity|]. split; [exact H1|exact Hw].
Defined.

End Engine.

(** ** Facts about urljoin *)

Lemma append_String_nonempty (a : string) (c : ascii) (b : string) :
  String.eqb (a +:+ String c b) "" = false.
Proof. destruct a; reflexivity. Qed.

Lemma join2_nonempty (url s : string) : String.eqb (Join.join2 url s) "" = false.
Proof. unfold Join.join2. apply append_String_nonempty. Qed.

Lemma urljoin_from_nonempty (rest : list string) (acc : string) :
  String.eqb acc "" = false ->
  fold_left Join.urljoin_body rest acc
  = fold_left (fun a s => if String.eqb s "" then a else Join.join2 a s) rest acc.
Proof.
  revert acc. induction rest as [|s rest IH]; intros acc Hacc; simpl; [done|].
  unfold Join.urljoin_body at 2. rewrite Hacc.
  destruct (String.eqb s "") eqn:Hs; simpl.
  - by apply IH.
  - apply IH, join2_nonempty.
Qed.

Lemma TrimLeft_no_leading_slash (s : string) :
  Join.first_char (Join.TrimLeft s "/") <> Some "/"%char.
Proof.
  induction s as [|c s IH]; simpl; [done|].
  destruct (Ascii.eqb c "/") eqn:Hc; [exact IH|].
  unfold Join.first_char; simpl. intros [= ->]. by rewrite Ascii.eqb_refl in Hc.
Qed.

Lemma last_char_cons (c d : ascii) (s : string) :
  Join.last_char (String c (String d s)) = Join.last_char (String d s).
Proof. reflexivity. Qed.

Lemma TrimRight_no_trailing_slash (s : string) :
  Join.last_char (Join.TrimRight s "/") <> Some "/"%char.
Proof.
  induction s as [|c s IH]; simpl; [done|].
  destruct (Join.TrimRight s "/") as [|d kept] eqn:Hk.
  - destruct (Ascii.eqb c "/") eqn:Hc; [done|].
    unfold Join.last_char; simpl. intros [= ->]. by rewrite Ascii.eqb_refl in Hc.
  - by rewrite last_char_cons.
Qed.

Lemma urljoin_skip_empty (v : list string) :
  Join.urljoin v = Join.urljoin_as_specified (Join.skip_empty v).
Proof.
  unfold Join.urljoin.
  induction v as [|s v IH]; [done|].
  simpl. unfold Join.urljoin_body at 2. simpl.
  destruct (String.eqb s "") eqn:Hs.
  - apply String.eqb_eq in Hs as ->. exact IH.
  - simpl. by apply urljoin_from_nonempty.
Qed.

(** C10, as the code has it: [urljoin] skips the empty segments in front,
    takes the first non-empty segment unchanged, and joins each later
    non-empty segment to it with one '/', the trailing slashes of what was
    joined so far and the leading slashes of the segment being stripped;
    later empty segments are skipped; the empty list gives the empty
    string. When the first segment is not empty this is what the
    specification says. *)
Theorem urljoin_joins_from_first_nonempty (v : list string) :
  Join.urljoin v = Join.urljoin_as_specified (Join.skip_empty v)
  /\ (forall first rest, first <> ""%string ->
        Join.urljoin (first :: rest) = Join.urljoin_as_specified (first :: rest))
  /\ (forall url s,
        Join.join2 url s = (Join.TrimRight url "/" +:+ "/" +:+ Join.TrimLeft s "/")%string
        /\ Join.last_char (Join.TrimRight url "/") <> Some "/"%char
        /\ Join.first_char (Join.TrimLeft s "/") <> Some "/"%char)
  /\ Join.urljoin [] = ""%string.
Proof.
  split; [apply urljoin_skip_empty|].
  split.
  - intros first rest Hne. rewrite urljoin_skip_empty. simpl.
    destruct (String.eqb first "") eqn:Hf; [|done].
    by apply String.eqb_eq in Hf.
  - split; [|done]. intros url s.
    split; [done|]. split.
    + apply TrimRight_no_trailing_slash.
    + apply TrimLeft_no_leading_slash.
Qed.

(** C10 as stated fails: an empty first segment is not kept as the left
    part of a join; the next segment is taken unchanged instead. *)
Lemma urljoin_empty_first_segment :
  Join.urljoin [""; "a"]%string = "a"%string
  /\ Join.urljoin_as_specified [""; "a"]%string = "/a"%string
  /\ Join.urljoin [""; "a"]%string <> Join.urljoin_as_specified [""; "a"]%string.
Proof. repeat split; try reflexivity. discriminate. Qed.

(** ** Facts about the package-level variables *)

Lemma do_call_keeps_nil (c : Log.call) (st st' : Log.globals * list Log.File) :
  Log.logfileHandle (fst st) = None -> snd st = [] ->
  Log.do_call c st = Some st' ->
  Log.logfileHandle (fst st') = None /\ snd st' = [].
Proof.
  intros Hnil Hcl. destruct st as [g cl]; simpl in *. subst cl.
  destruct c as [p opened|closed]; simpl.
  - unfold Log.InitLogFile.
    destruct (String.eqb p ""); [by intros [= <-]|].
    destruct opened as [err|f]; simpl; [done|]. by intros [= <-].
  - unfold Log.CloseLogFile. rewrite Hnil. by intros [= <-].
Qed.

(** C9: after any sequence of calls of [InitLogFile] and [CloseLogFile]
    from the initial package state, [logfileHandle] is nil, no file has
    been closed, and [CloseLogFile] changes nothing and closes nothing,
    even when [InitLogFile] has opened a log file. *)
Theorem logfileHandle_always_nil (cs : list Log.call) (g : Log.globals)
    (closed_files : list Log.File) :
  Log.do_calls cs (Log.globals0, []) = Some (g, closed_files) ->
  Log.logfileHandle g = None /\ closed_files = []
  /\ forall answer, Log.CloseLogFile answer g = Some (g, []).
Proof.
  assert (Hgen : forall st st',
    Log.logfileHandle (fst st) = None -> snd st = [] ->
    Log.do_calls cs st = Some st' ->
    Log.logfileHandle (fst st') = None /\ snd st' = []).
  { induction cs as [|c cs IH]; intros st st' Hnil Hcl; simpl.
    - by intros [= <-].
    - destruct (Log.do_call c st) as [st1|] eqn:Hc; [|done].
      destruct (do_call_keeps_nil c st st1 Hnil Hcl Hc) as [H1 H2].
      by apply IH. }
  intros Hrun. destruct (Hgen (Log.globals0, []) _ eq_refl eq_refl Hrun) as [H1 H2]; simpl in *.
  repeat split; try done.
  intros answer. unfold Log.CloseLogFile. by rewrite H1.
Qed.

Lemma logfileHandle_always_nil_witness :
  let g := Log.mkGlobals None (Some (Log.mkLogger (Log.mkFile 3))) in
  Log.logfileHandle g = None /\ @nil Log.File = []
  /\ forall answer, Log.CloseLogFile answer g = Some (g, []).
Proof.
  exact (logfileHandle_always_nil
           [Log.CallInitLogFile "/var/log/y10k.log" (inr (Log.mkFile 3));
            Log.CallCloseLogFile None] _ [] eq_refl).
Defined.

(** ** More facts about urljoin *)

Lemma urljoin_body_empty (acc : string) : Join.urljoin_body acc "" = acc.
Proof.
  unfold Join.urljoin_body. destruct (String.eqb acc "") eqn:Ha; [|done].
  by apply String.eqb_eq in Ha.
Qed.

Lemma urljoin_body_nonempty (acc s : string) :
  String.eqb acc "" = false ->
  String.eqb (Join.urljoin_body acc s) "" = false.
Proof.
  intros Ha. unfold Join.urljoin_body. rewrite Ha.
  destruct (String.eqb s ""); simpl; [done|apply join2_nonempty].
Qed.

Lemma fold_urljoin_nonempty (v : list string) (acc : string) :
  String.eqb acc "" = false ->
  String.eqb (fold_left Join.urljoin_body v acc) "" = false.
Proof.
  revert acc. induction v as [|s v IH]; intros acc Ha; simpl; [done|].
  by apply IH, urljoin_body_nonempty.
Qed.

Lemma fold_urljoin_filter (v : list string) (acc : string) :
  fold_left Join.urljoin_body v acc
  = fold_left Join.urljoin_body (filter (fun s => s <> ""%string) v) acc.
Proof.
  revert acc. induction v as [|s v IH]; intros acc; [done|].
  destruct (decide (s = ""%string)) as [->|Hs].
  - rewrite filter_cons_False by (by intros []). simpl.
    by rewrite urljoin_body_empty.
  - rewrite filter_cons_True by done. simpl. apply IH.
Qed.

(** X1: empty segments are ignored wherever they stand: [urljoin] of a
    list is [urljoin] of its non-empty segments. *)
Theorem urljoin_ignores_empty_segments (v : list string) :
  Join.urljoin v = Join.urljoin (filter (fun s => s <> ""%string) v).
Proof. apply fold_urljoin_filter. Qed.

(** X2: joining in two goes: [urljoin] of a concatenation is [urljoin] of
    the result for the first part followed by the second part. *)
Theorem urljoin_app (v1 v2 : list string) :
  Join.urljoin (v1 ++ v2) = Join.urljoin (Join.urljoin v1 :: v2).
Proof.
  unfold Join.urljoin. rewrite fold_left_app. simpl.
  by unfold Join.urljoin_body at 2.
Qed.

(** X3: the result is empty exactly when every segment is empty. *)
Theorem urljoin_empty_iff (v : list string) :
  Join.urljoin v = ""%string <-> Forall (fun s => s = ""%string) v.
Proof.
  unfold Join.urljoin. split.
  - induction v as [|s v IH]; [constructor|]. simpl.
    unfold Join.urljoin_body at 2. simpl.
    destruct (String.eqb s "") eqn:Hs.
    + apply String.eqb_eq in Hs as ->. intros H. constructor; [done|by apply IH].
    + intros H. pose proof (fold_urljoin_nonempty v s Hs) as Hne.
      rewrite H in Hne. discriminate Hne.
  - induction 1 as [|s v -> _ IH]; [done|]. simpl. exact IH.
Qed.

Lemma string_app_assoc (a b c : string) :
  ((a +:+ b) +:+ c = a +:+ (b +:+ c))%string.
Proof.
  induction a as [|x a IH]; [done|].
  change (String x ((a +:+ b) +:+ c) = String x (a +:+ (b +:+ c)))%string.
  by rewrite IH.
Qed.

Lemma TrimLeft_clean (s : string) :
  Join.first_char s <> Some "/"%char -> Join.TrimLeft s "/" = s.
Proof.
  destruct s as [|c s]; [done|]. unfold Join.first_char. simpl.
  destruct (Ascii.eqb c "/") eqn:Hc; [|done].
  apply Ascii.eqb_eq in Hc as ->. by intros [].
Qed.

Lemma TrimRight_clean (s : string) :
  Join.last_char s <> Some "/"%char -> Join.TrimRight s "/" = s.
Proof.
  induction s as [|c s IH]; [done|]. destruct s as [|d s].
  - unfold Join.last_char. simpl.
    destruct (Ascii.eqb c "/") eqn:Hc; [|done].
    apply Ascii.eqb_eq in Hc as ->. by intros [].
  - rewrite last_char_cons. intros Hl.
    change (Join.TrimRight (String c (String d s)) "/")
      with (match Join.TrimRight (String d s) "/" with
            | EmptyString => if Join.in_cutset c "/" then EmptyString
                             else String c EmptyString
            | kept => String c kept
            end).
    by rewrite (IH Hl).
Qed.

Lemma last_char_app (a s : string) :
  s <> ""%string -> Join.last_char (a +:+ s) = Join.last_char s.
Proof.
  intros Hs. induction a as [|c a IH]; [done|].
  change (String c a +:+ s)%string with (String c (a +:+ s)).
  destruct (a +:+ s)%string as [|d r] eqn:Hr.
  - destruct a; [done|discriminate Hr].
  - by rewrite last_char_cons.
Qed.

Lemma join2_clean (acc s : string) :
  Join.last_char acc <> Some "/"%char -> Join.clean_segment s ->
  Join.join2 acc s = (acc +:+ "/" +:+ s)%string
  /\ Join.join2 acc s <> ""%string
  /\ Join.last_char (Join.join2 acc s) <> Some "/"%char.
Proof.
  intros Hacc (Hne & Hfirst & Hlast). unfold Join.join2.
  rewrite (TrimRight_clean acc Hacc), (TrimLeft_clean s Hfirst).
  split; [done|]. split.
  - intros H. pose proof (append_String_nonempty acc "/" s) as Hn.
    change (acc +:+ "/" +:+ s)%string with (acc +:+ String "/" s)%string in H.
    rewrite H in Hn. discriminate Hn.
  - rewrite last_char_app by done.
    change (Join.last_char (String "/" s) <> Some "/"%char).
    destruct s as [|d r]; [done|]. by rewrite last_char_cons.
Qed.

Lemma fold_urljoin_clean (rest : list string) (acc : string) :
  acc <> ""%string -> Join.last_char acc <> Some "/"%char ->
  Forall Join.clean_segment rest ->
  fold_left Join.urljoin_body rest acc = String.concat "/" (acc :: rest).
Proof.
  revert acc. induction rest as [|s rest IH]; intros acc Hne Hlast Hall; [done|].
  apply Forall_cons in Hall as [Hs Hall].
  destruct (join2_clean acc s Hlast Hs) as (Hj & Hjne & Hjlast).
  assert (Hbody : Join.urljoin_body acc s = Join.join2 acc s).
  { unfold Join.urljoin_body.
    destruct (String.eqb acc "") eqn:Ha; [by apply String.eqb_eq in Ha|].
    destruct (String.eqb s "") eqn:Hse; [|done].
    apply String.eqb_eq in Hse. by destruct Hs. }
  simpl fold_left. rewrite Hbody, (IH _ Hjne Hjlast Hall), Hj.
  destruct rest as [|t rest]; [done|].
  change (((acc +:+ "/" +:+ s) +:+ "/" +:+ String.concat "/" (t :: rest)
           = acc +:+ "/" +:+ (s +:+ "/" +:+ String.concat "/" (t :: rest)))%string).
  by rewrite string_app_assoc.
Qed.

(** X4: for segments that are not empty and have no slash at either end,
    [urljoin] is the plain join with '/' between neighbours. *)
Theorem urljoin_clean_segments (v : list string) :
  Forall Join.clean_segment v -> Join.urljoin v = String.concat "/" v.
Proof.
  intros Hall. destruct v as [|s rest]; [done|].
  apply Forall_cons in Hall as [(Hne & _ & Hlast) Hall].
  unfold Join.urljoin. simpl fold_left.
  change (Join.urljoin_body "" s) with s.
  by apply fold_urljoin_clean.
Qed.

Lemma urljoin_clean_segments_witness :
  Join.urljoin ["http://mirror"; "centos"; "7"; "os"]%string
  = "http://mirror/centos/7/os"%string.
Proof.
  apply (urljoin_clean_segments ["http://mirror"; "centos"; "7"; "os"]%string).
  repeat (apply Forall_cons; split;
          [repeat split; discriminate|]).
  apply Forall_nil_2.
Defined.

(** ** More facts about the logger *)

(** X5: [Logf] panics when no logger is set or the category is none of
    the four, yet [Printf], [Errorf] and [Dprintf] never panic, whatever
    the state of the logger, the error and the debug flag. *)
Theorem logging_never_panics (mismatch_text : string) (g : Log.globals)
    (DebugMode : bool) (err : option error) (msg : string) :
  is_Some (Log.Printf g msg)
  /\ is_Some (Log.Errorf mismatch_text g err msg)
  /\ is_Some (Log.Dprintf DebugMode g msg)
  /\ (forall category, Log.Logf Log.globals0 category msg = None)
  /\ (forall category, category < 0 \/ 3 < category ->
        Log.Logf g category msg = None).
Proof.
  unfold Log.Printf, Log.Errorf, Log.Dprintf, Log.Logf.
  repeat split.
  - by destruct (Log.logger g).
  - by destruct (Log.logger g), err.
  - destruct DebugMode; [|done]. by destruct (Log.logger g).
  - intros category. simpl. by destruct (Log.cat_name category).
  - intros category Hc. unfold Log.cat_name, Log.LOG_CAT_ERROR,
      Log.LOG_CAT_WARN, Log.LOG_CAT_INFO, Log.LOG_CAT_DEBUG.
    destruct (category =? 0) eqn:H0; [lia|].
    destruct (category =? 1) eqn:H1; [lia|].
    destruct (category =? 2) eqn:H2; [lia|].
    destruct (category =? 3) eqn:H3; [lia|done].
Qed.

(** X6: routing: without a logger [Printf] writes the message as it is to
    standard output and [Errorf] and [Dprintf] write to standard error;
    with a logger all three write to that logger and to nothing else.
    With [DebugMode] off [Dprintf] writes nothing in either case. *)
Theorem logging_routes_by_logger (mismatch_text : string) (g : Log.globals)
    (err : option error) (msg : string) :
  (Log.logger g = None ->
     Log.Printf g msg = Some (Log.ToStdout msg)
     /\ (exists text, Log.Errorf mismatch_text g err msg
                      = Some (Log.ToStderr text))
     /\ (exists text, Log.Dprintf true g msg = Some [Log.ToStderr text]))
  /\ (forall l, Log.logger g = Some l ->
        (exists text, Log.Printf g msg = Some (Log.ToLogger l text))
        /\ (exists text, Log.Errorf mismatch_text g err msg
                         = Some (Log.ToLogger l text))
        /\ (exists text, Log.Dprintf true g msg = Some [Log.ToLogger l text]))
  /\ Log.Dprintf false g msg = Some [].
Proof.
  unfold Log.Printf, Log.Errorf, Log.Dprintf, Log.Logf.
  split; [|split; [|done]].
  - intros ->. split; [done|]. split; [destruct err|]; by eexists.
  - intros l ->. simpl. split; [by eexists|].
    split; [destruct err|]; by eexists.
Qed.

(** X7: severity tags: what [Errorf] writes is always an error-severity
    line and never a debug-severity one, with or without an error value
    and whatever the message; what [Dprintf] writes is debug-severity and
    never error-severity. *)
Theorem severities_do_not_mix (mismatch_text : string) (g : Log.globals)
    (DebugMode : bool) (err : option error) (msg : string) :
  (exists o, Log.Errorf mismatch_text g err msg = Some o
             /\ Engine.is_error_output o = true
             /\ Engine.is_debug_output o = false)
  /\ (exists os, Log.Dprintf DebugMode g msg = Some os
                 /\ Forall (fun o => Engine.is_debug_output o = true
                                     /\ Engine.is_error_output o = false) os).
Proof.
  unfold Log.Errorf, Log.Dprintf, Log.Logf. split.
  - destruct (Log.logger g), err; eexists; (split; [done|]); by split.
  - destruct DebugMode; [|by eexists].
    destruct (Log.logger g); eexists; (split; [done|]).
    all: apply Forall_cons; split; [by split|constructor].
Qed.

(** X8: [InitLogFile] with an empty [LogFilePath] changes nothing and does
    not depend on the file system; with a path, a failed open panics, and
    a successful one makes the opened file the destination of [Printf],
    [Errorf] and [Dprintf] from then on. *)
Theorem InitLogFile_switches_logging (LogFilePath : string)
    (opened : error + Log.File) (g : Log.globals) :
  (LogFilePath = ""%string -> Log.InitLogFile LogFilePath opened g = Some g)
  /\ (LogFilePath <> ""%string -> forall e, opened = inl e ->
        Log.InitLogFile LogFilePath opened g = None)
  /\ (LogFilePath <> ""%string -> forall f, opened = inr f ->
        exists g',
          Log.InitLogFile LogFilePath opened g = Some g'
          /\ Log.logger g' = Some (Log.mkLogger f)
          /\ forall mismatch_text err msg,
              (exists text, Log.Printf g' msg
                            = Some (Log.ToLogger (Log.mkLogger f) text))
              /\ (exists text, Log.Errorf mismatch_text g' err msg
                               = Some (Log.ToLogger (Log.mkLogger f) text))
              /\ (exists text, Log.Dprintf true g' msg
                               = Some [Log.ToLogger (Log.mkLogger f) text])).
Proof.
  unfold Log.InitLogFile. split; [|split].
  - by intros ->.
  - intros Hp e ->. apply String.eqb_neq in Hp. by rewrite Hp.
  - intros Hp f ->. apply String.eqb_neq in Hp. rewrite Hp.
    eexists. split; [done|]. split; [done|].
    intros mismatch_text err msg.
    unfold Log.Printf, Log.Errorf, Log.Dprintf, Log.Logf. simpl.
    split; [by eexists|]. split; [destruct err|]; by eexists.
Qed.
